(** * CPU scheduling simulator (parta.c): FCFS and Round-Robin over a process table

    A shallow embedding of [init_procs], [run_proc], [fcfs_run], [rr_next]
    and [rr_run], followed by the properties of the design document that
    are about them.

    Conventions of the embedding:
    - a C [int] is a [Z]; the additions and subtractions the program does
      on ints are 32-bit two's-complement operations, written out in [CInt]
      with their wrap-around (C leaves signed overflow undefined; this is
      what the compiled program computes).  The theorems say where a result
      is the exact sum;
    - a [for] loop over [0 .. plen - 1] is a recursion on the number of
      iterations left; its counter never passes [plen], so incrementing it
      is exact;
    - the process array is a [list pcb] held in a store that is passed
      explicitly; [procs\[i\]] is a bounds-checked [load]/[store], and an
      access outside the array is the outcome [Undefined];
    - the [while (1)] loop of [rr_run] takes fuel; running out of it is the
      outcome [OutOfFuel], distinct from a result. *)

From Stdlib Require Import ZArith Lia Bool String.
From stdpp Require Import base tactics option list relations.

Local Open Scope Z_scope.

(** ** C [int] arithmetic *)

Module CInt.

Definition int_min : Z := - 2 ^ 31.
Definition int_max : Z := 2 ^ 31 - 1.
Definition modulus : Z := 2 ^ 32.

(** The representative of [z] in the range of [int]. *)
Definition wrap (z : Z) : Z := (z - int_min) mod modulus + int_min.

Definition add (x y : Z) : Z := wrap (x + y).
Definition sub (x y : Z) : Z := wrap (x - y).

(** C's [%] truncates towards zero. *)
Definition rem (x y : Z) : Z := Z.rem x y.

Definition in_range (z : Z) : Prop := int_min <= z <= int_max.

End CInt.

(** ** Process control blocks *)

(** Modelled from the spec: the header parta.h that declares [struct pcb] is
    not among the sources.  The three [int] fields are the ones parta.c reads
    and writes ([pid], [burst_left], [wait]); the design document calls them
    id, remainingBurst and accumulatedWait. *)
Record pcb : Type := mkpcb {
  pid : Z;
  burst_left : Z;
  wait : Z
}.

Definition set_burst_left (p : pcb) (b : Z) : pcb :=
  {| pid := pid p; burst_left := b; wait := wait p |}.

Definition set_wait (p : pcb) (w : Z) : pcb :=
  {| pid := pid p; burst_left := burst_left p; wait := w |}.

(** A [struct pcb*] argument: the null pointer, or the address of the
    process array held in the store. *)
Inductive pcb_ptr : Type := NULL | Procs.

(** ** Outcomes of a call *)

Inductive outcome (A : Type) : Type :=
| Done (a : A)      (* the call returns *)
| Undefined         (* an access outside the array *)
| OutOfFuel.        (* the loop was cut off *)

Arguments Done {A} a.
Arguments Undefined {A}.
Arguments OutOfFuel {A}.

Global Instance outcome_ret : MRet outcome := @Done.

Global Instance outcome_bind : MBind outcome := fun A B f r =>
  match r with
  | Done a => f a
  | Undefined => Undefined
  | OutOfFuel => OutOfFuel
  end.

(** ** Array accesses *)

Definition load {A : Type} (m : list A) (i : Z) : outcome A :=
  if 0 <=? i then
    match m !! Z.to_nat i with
    | Some x => Done x
    | None => Undefined
    end
  else Undefined.

Definition store {A : Type} (m : list A) (i : Z) (x : A) : outcome (list A) :=
  if (0 <=? i) && (i <? Z.of_nat (length m)) then Done (<[Z.to_nat i := x]> m)
  else Undefined.

(** ** [init_procs] *)

(** The body of [for (i = 0; i < blen; i++)]: [n] iterations are left, and
    [procs] is the part of the fresh block initialised so far. *)
Fixpoint init_procs_loop (n : nat) (i : Z) (bursts : list Z) (procs : list pcb)
  : outcome (list pcb) :=
  match n with
  | O => Done procs
  | S n' =>
      b ← load bursts i;
      init_procs_loop n' (i + 1) bursts
        (procs ++ [ {| pid := i; burst_left := b; wait := 0 |} ])
  end.

(** [malloc_ok] says whether [malloc] returned a block.  The result is the
    pointer returned: [None] for [NULL], [Some m] for a fresh array holding
    [m]. *)
Definition init_procs (malloc_ok : bool) (bursts : option (list Z)) (blen : Z)
  : outcome (option (list pcb)) :=
  match bursts with
  | None => Done None
  | Some bs =>
      if blen <=? 0 then Done None
      else if negb malloc_ok then Done None
      else m ← init_procs_loop (Z.to_nat blen) 0 bs []; Done (Some m)
  end.

(** ** [run_proc] *)

(** The loop that makes everyone else wait; [n] iterations are left. *)
Fixpoint run_proc_loop (n : nat) (i current run_time : Z) (m : list pcb)
  : outcome (list pcb) :=
  match n with
  | O => Done m
  | S n' =>
      if i =? current then run_proc_loop n' (i + 1) current run_time m
      else
        p ← load m i;
        if burst_left p >? 0 then
          m' ← store m i (set_wait p (CInt.add (wait p) run_time));
          run_proc_loop n' (i + 1) current run_time m'
        else run_proc_loop n' (i + 1) current run_time m
  end.

Definition run_proc (procs : pcb_ptr) (plen current amount : Z) (m : list pcb)
  : outcome (list pcb) :=
  match procs with
  | NULL => Done m
  | Procs =>
      if plen <=? 0 then Done m
      else if (current <? 0) || (current >=? plen) then Done m
      else if amount <=? 0 then Done m
      else
        c ← load m current;
        let available := burst_left c in
        if available <=? 0 then Done m
        else
          let run_time := if available <? amount then available else amount in
          m1 ← store m current (set_burst_left c (CInt.sub (burst_left c) run_time));
          run_proc_loop (Z.to_nat plen) 0 current run_time m1
  end.

(** ** [fcfs_run] *)

Fixpoint fcfs_loop (n : nat) (i plen total_time : Z) (m : list pcb)
  : outcome (Z * list pcb) :=
  match n with
  | O => Done (total_time, m)
  | S n' =>
      p ← load m i;
      let remaining := burst_left p in
      if remaining <=? 0 then fcfs_loop n' (i + 1) plen total_time m
      else
        m' ← run_proc Procs plen i remaining m;
        fcfs_loop n' (i + 1) plen (CInt.add total_time remaining) m'
  end.

(** Returns the total time and the store after the call. *)
Definition fcfs_run (procs : pcb_ptr) (plen : Z) (m : list pcb)
  : outcome (Z * list pcb) :=
  match procs with
  | NULL => Done (0, m)
  | Procs =>
      if plen <=? 0 then Done (0, m)
      else fcfs_loop (Z.to_nat plen) 0 plen 0 m
  end.

(** ** [rr_next] *)

(** The loop that sets [has_work]; the flag starts at 0 and the loop breaks
    as soon as it is set. *)
Fixpoint has_work_loop (n : nat) (i : Z) (m : list pcb) : outcome Z :=
  match n with
  | O => Done 0
  | S n' =>
      p ← load m i;
      if burst_left p >? 0 then Done 1 else has_work_loop n' (i + 1) m
  end.

(** The circular scan; [n] probes are left. *)
Fixpoint rr_next_scan (n : nat) (offset start plen : Z) (m : list pcb)
  : outcome Z :=
  match n with
  | O => Done (-1)
  | S n' =>
      let idx := CInt.rem (CInt.add start offset) plen in
      p ← load m idx;
      if burst_left p >? 0 then Done idx
      else rr_next_scan n' (offset + 1) start plen m
  end.

Definition rr_next (current : Z) (procs : pcb_ptr) (plen : Z) (m : list pcb)
  : outcome Z :=
  match procs with
  | NULL => Done (-1)
  | Procs =>
      if plen <=? 0 then Done (-1)
      else
        has_work ← has_work_loop (Z.to_nat plen) 0 m;
        if has_work =? 0 then Done (-1)
        else
          let start := CInt.rem (CInt.add current 1) plen in
          rr_next_scan (Z.to_nat plen) 0 start plen m
  end.

(** ** [rr_run] *)

(** The loop that looks for the first process with work; [current] starts
    at [-1] and the loop breaks at the first hit. *)
Fixpoint first_with_work (n : nat) (i : Z) (m : list pcb) : outcome Z :=
  match n with
  | O => Done (-1)
  | S n' =>
      p ← load m i;
      if burst_left p >? 0 then Done i else first_with_work n' (i + 1) m
  end.

Fixpoint rr_loop (fuel : nat) (plen quantum current total_time : Z)
  (m : list pcb) : outcome (Z * list pcb) :=
  match fuel with
  | O => OutOfFuel
  | S fuel' =>
      p ← load m current;
      let remaining := burst_left p in
      '(total_time', m') ←
        (if remaining >? 0 then
           let run_time := if remaining <? quantum then remaining else quantum in
           m' ← run_proc Procs plen current run_time m;
           Done (CInt.add total_time run_time, m')
         else Done (total_time, m));
      next ← rr_next current Procs plen m';
      if next =? -1 then Done (total_time', m')
      else rr_loop fuel' plen quantum next total_time' m'
  end.

Definition rr_run (fuel : nat) (procs : pcb_ptr) (plen quantum : Z)
  (m : list pcb) : outcome (Z * list pcb) :=
  match procs with
  | NULL => Done (0, m)
  | Procs =>
      if (plen <=? 0) || (quantum <=? 0) then Done (0, m)
      else
        current ← first_with_work (Z.to_nat plen) 0 m;
        if current =? -1 then Done (0, m)
        else rr_loop fuel plen quantum current 0 m
  end.

(** ** The drivers with a log of their [run_proc] calls

    The same two drivers, with a ghost log: each call of [run_proc] appends
    the process it runs and the time it runs it for.  [forget_log] drops the
    log again. *)

Fixpoint fcfs_loop_log (n : nat) (i plen total_time : Z) (log : list (Z * Z))
  (m : list pcb) : outcome (Z * list pcb * list (Z * Z)) :=
  match n with
  | O => Done (total_time, m, log)
  | S n' =>
      p ← load m i;
      let remaining := burst_left p in
      if remaining <=? 0 then fcfs_loop_log n' (i + 1) plen total_time log m
      else
        m' ← run_proc Procs plen i remaining m;
        fcfs_loop_log n' (i + 1) plen (CInt.add total_time remaining)
          (log ++ [(i, remaining)]) m'
  end.

Definition fcfs_run_log (procs : pcb_ptr) (plen : Z) (m : list pcb)
  : outcome (Z * list pcb * list (Z * Z)) :=
  match procs with
  | NULL => Done (0, m, [])
  | Procs =>
      if plen <=? 0 then Done (0, m, [])
      else fcfs_loop_log (Z.to_nat plen) 0 plen 0 [] m
  end.

Fixpoint rr_loop_log (fuel : nat) (plen quantum current total_time : Z)
  (log : list (Z * Z)) (m : list pcb) : outcome (Z * list pcb * list (Z * Z)) :=
  match fuel with
  | O => OutOfFuel
  | S fuel' =>
      p ← load m current;
      let remaining := burst_left p in
      '(total_time', m', log') ←
        (if remaining >? 0 then
           let run_time := if remaining <? quantum then remaining else quantum in
           m' ← run_proc Procs plen current run_time m;
           Done (CInt.add total_time run_time, m', log ++ [(current, run_time)])
         else Done (total_time, m, log));
      next ← rr_next current Procs plen m';
      if next =? -1 then Done (total_time', m', log')
      else rr_loop_log fuel' plen quantum next total_time' log' m'
  end.

Definition rr_run_log (fuel : nat) (procs : pcb_ptr) (plen quantum : Z)
  (m : list pcb) : outcome (Z * list pcb * list (Z * Z)) :=
  match procs with
  | NULL => Done (0, m, [])
  | Procs =>
      if (plen <=? 0) || (quantum <=? 0) then Done (0, m, [])
      else
        current ← first_with_work (Z.to_nat plen) 0 m;
        if current =? -1 then Done (0, m, [])
        else rr_loop_log fuel plen quantum current 0 [] m
  end.

Definition forget_log {A B C : Type} (r : outcome (A * B * C)) : outcome (A * B) :=
  '(a, b, _) ← r; Done (a, b).

(** ** [main] (parta_main.c)

    What the program writes, in order.  The fixed lines are constructors;
    a formatted line keeps the arguments of its [printf].  [AverageWait
    waits plen] is the line "Average wait time: %.2f" for the [double] sum of
    [waits] divided by [plen] (0.0 when [plen <= 0]): the event keeps the ints
    that go into the floating-point computation, not its result. *)
Inductive event : Type :=
| MissingArguments                       (* stdout: ERROR: Missing arguments *)
| AllocationFailed                       (* stderr: ERROR: Memory allocation failed *)
| InitFailed                             (* stderr: ERROR: Failed to initialize processes *)
| UsingFCFS                              (* stdout: Using FCFS *)
| UsingRR (quantum : Z)                  (* stdout: Using RR(%d). *)
| Accepted (pid burst : Z)               (* stdout: Accepted P%d: Burst %d *)
| AverageWait (waits : list Z) (plen : Z).

(** The loop [bursts\[i\] = atoi(argv\[i + first\])]; [bursts] is the part
    of the buffer filled so far. *)
Fixpoint parse_bursts (atoi : string -> Z) (n : nat) (i first : Z)
  (argv : list string) (bursts : list Z) : outcome (list Z) :=
  match n with
  | O => Done bursts
  | S n' =>
      a ← load argv (i + first);
      parse_bursts atoi n' (i + 1) first argv (bursts ++ [atoi a])
  end.

(** The loop that prints the accepted processes. *)
Fixpoint print_accepted (n : nat) (i : Z) (m : list pcb) (out : list event)
  : outcome (list event) :=
  match n with
  | O => Done out
  | S n' =>
      p ← load m i;
      print_accepted n' (i + 1) m (out ++ [Accepted (pid p) (burst_left p)])
  end.

(** The loop [sum_wait += procs\[i\].wait], keeping the terms of the sum. *)
Fixpoint collect_waits (n : nat) (i : Z) (m : list pcb) (waits : list Z)
  : outcome (list Z) :=
  match n with
  | O => Done waits
  | S n' =>
      p ← load m i;
      collect_waits n' (i + 1) m (waits ++ [wait p])
  end.

(** [atoi] is the C library's; it is a parameter here.  [malloc_bursts] and
    [malloc_procs] say whether the two allocations succeed, and [fuel] bounds
    the loop of [rr_run].  [argc] is the length of [argv]; where [plen] is
    computed [argc] is at least 3, so the subtraction is exact.  The result
    is the exit status and the output. *)
Definition main (atoi : string -> Z) (malloc_bursts malloc_procs : bool)
  (fuel : nat) (argv : list string) : outcome (Z * list event) :=
  let argc := Z.of_nat (length argv) in
  if argc <? 2 then Done (1, [MissingArguments])
  else
    algorithm ← load argv 1;
    if String.eqb algorithm "fcfs" then
      if argc <? 3 then Done (1, [MissingArguments])
      else
        let plen := argc - 2 in
        if negb malloc_bursts then Done (1, [AllocationFailed])
        else
          bursts ← parse_bursts atoi (Z.to_nat plen) 0 2 argv [];
          procs ← init_procs malloc_procs (Some bursts) plen;
          match procs with
          | None => Done (1, [InitFailed])
          | Some m =>
              out ← print_accepted (Z.to_nat plen) 0 m [UsingFCFS];
              '(total_time, m') ← fcfs_run Procs plen m;
              waits ← collect_waits (Z.to_nat plen) 0 m' [];
              Done (0, out ++ [AverageWait waits plen])
          end
    else if String.eqb algorithm "rr" then
      if argc <? 4 then Done (1, [MissingArguments])
      else
        a2 ← load argv 2;
        let quantum := atoi a2 in
        let plen := argc - 3 in
        if negb malloc_bursts then Done (1, [AllocationFailed])
        else
          bursts ← parse_bursts atoi (Z.to_nat plen) 0 3 argv [];
          procs ← init_procs malloc_procs (Some bursts) plen;
          match procs with
          | None => Done (1, [InitFailed])
          | Some m =>
              out ← print_accepted (Z.to_nat plen) 0 m [UsingRR quantum];
              '(total_time, m') ← rr_run fuel Procs plen quantum m;
              waits ← collect_waits (Z.to_nat plen) 0 m' [];
              Done (0, out ++ [AverageWait waits plen])
          end
    else Done (1, [MissingArguments]).

(** ** Specification-level definitions *)

Definition sumZ (l : list Z) : Z := foldr Z.add 0 l.

Definition bursts_of (m : list pcb) : list Z := burst_left <$> m.

(** What the waiting loop of [run_proc] does to the record at index [i]. *)
Definition others_wait (current run_time : Z) (i : Z) (p : pcb) : pcb :=
  if i =? current then p
  else if burst_left p >? 0 then set_wait p (CInt.add (wait p) run_time)
  else p.

(** The table after [current] has run for [run_time]. *)
Definition advance (m : list pcb) (current : nat) (run_time : Z) : list pcb :=
  imap (fun k p =>
          if decide (k = current)
          then set_burst_left p (CInt.sub (burst_left p) run_time)
          else if burst_left p >? 0
               then set_wait p (CInt.add (wait p) run_time)
               else p) m.

(** The table [init_procs] builds from [bursts]. *)
Definition fresh_table (bursts : list Z) : list pcb :=
  imap (fun k b => {| pid := Z.of_nat k; burst_left := b; wait := 0 |}) bursts.

(** The table FCFS has reached when the processes below [i] have run to
    completion: they are finished, the others still have their burst, and a
    process with work has waited for the bursts before it (up to [i]). *)
Definition fcfs_state (bursts : list Z) (i : nat) : list pcb :=
  imap (fun k b =>
          {| pid := Z.of_nat k;
             burst_left := if decide (k < i)%nat then 0 else b;
             wait := if b >? 0
                     then CInt.wrap (sumZ (take (Nat.min k i) bursts))
                     else 0 |}) bursts.

(** The record at index [k] still has work. *)
Definition active (m : list pcb) (k : nat) : Prop :=
  exists p, m !! k = Some p /\ 0 < burst_left p.

(** The number of quanta a burst of [b] takes: the ceiling of [b / quantum]. *)
Definition slices (quantum b : Z) : Z := (b + quantum - 1) / quantum.

Definition total_slices (quantum : Z) (bursts : list Z) : Z :=
  sumZ (slices quantum <$> bursts).

(** The calls that run every process with work once, in id order from
    process [i] on, each for its whole burst. *)
Fixpoint burst_runs (i : Z) (bursts : list Z) : list (Z * Z) :=
  match bursts with
  | [] => []
  | b :: bs =>
      if b >? 0 then (i, b) :: burst_runs (i + 1) bs
      else burst_runs (i + 1) bs
  end.

(** One call of [run_proc] on the table, with any arguments, takes the
    store from [m] to [m']. *)
Definition run_proc_call (m m' : list pcb) : Prop :=
  exists procs current amount,
    run_proc procs (Z.of_nat (length m)) current amount m = Done m'.

(** Every burst is a non-negative [int]. *)
Definition int_bursts (m : list pcb) : Prop :=
  Forall (fun p => 0 <= burst_left p <= CInt.int_max) m.




(** The work a table still owes: its positive bursts. *)
Definition work_of (m : list pcb) : list Z := Z.max 0 <$> bursts_of m.

(** What calls of [run_proc] keep of a record on any table: its [pid], and
    the whole record when it has no work (a zero or negative burst). *)
Definition idle_kept (p p' : pcb) : Prop :=
  pid p' = pid p /\ (burst_left p <= 0 -> p' = p).

(** The time the calls in a log run process [k] for, in total. *)
Fixpoint run_time_of (k : Z) (log : list (Z * Z)) : Z :=
  match log with
  | [] => 0
  | (i, run_time) :: rest =>
      (if i =? k then run_time else 0) + run_time_of k rest
  end.

(** Time accounting on a table created from [bursts]: with the elapsed time
    being the work done so far (the bursts minus what is left of them), a
    process with work has spent all of the elapsed time either running or
    waiting, and a finished process waited and ran no longer than that. *)
Definition accounted (bursts : list Z) (m : list pcb) : Prop :=
  length m = length bursts /\
  forall k p b, m !! k = Some p -> bursts !! k = Some b ->
    0 <= burst_left p <= b /\ 0 <= wait p /\
    (0 < burst_left p ->
       wait p + (b - burst_left p) = sumZ bursts - sumZ (bursts_of m)) /\
    (burst_left p = 0 ->
       wait p + b <= sumZ bursts - sumZ (bursts_of m)).

(** * Properties *)

(** ** Integers *)

(** Linear arithmetic with the bounds of [int] unfolded. *)
Ltac int_lia :=
  unfold CInt.in_range, CInt.int_min, CInt.int_max in *; lia.

Lemma wrap_in_range z : CInt.in_range z -> CInt.wrap z = z.
Proof.
  unfold CInt.in_range, CInt.wrap, CInt.int_min, CInt.int_max, CInt.modulus.
  intros H. rewrite Z.mod_small by lia. lia.
Qed.

Lemma wrap_range z : CInt.in_range (CInt.wrap z).
Proof.
  unfold CInt.in_range, CInt.wrap, CInt.int_min, CInt.int_max, CInt.modulus.
  pose proof (Z.mod_pos_bound (z - - 2 ^ 31) (2 ^ 32)). lia.
Qed.

Lemma wrap_add_wrap_l a b : CInt.wrap (CInt.wrap a + b) = CInt.wrap (a + b).
Proof.
  unfold CInt.wrap. f_equal.
  replace ((a - CInt.int_min) mod CInt.modulus + CInt.int_min + b - CInt.int_min)
    with ((a - CInt.int_min) mod CInt.modulus + b) by lia.
  rewrite Zplus_mod_idemp_l. f_equal. lia.
Qed.

Lemma add_wrap_l a b : CInt.add (CInt.wrap a) b = CInt.wrap (a + b).
Proof. apply wrap_add_wrap_l. Qed.

Lemma add_in_range a b : CInt.in_range (a + b) -> CInt.add a b = a + b.
Proof. apply wrap_in_range. Qed.

Lemma sub_in_range a b : CInt.in_range (a - b) -> CInt.sub a b = a - b.
Proof. apply wrap_in_range. Qed.

Lemma sub_diag a : CInt.sub a a = 0.
Proof. unfold CInt.sub. rewrite Z.sub_diag. reflexivity. Qed.

(** ** Array accesses *)

Lemma load_lookup {A} (m : list A) (k : nat) (x : A) :
  m !! k = Some x -> load m (Z.of_nat k) = Done x.
Proof.
  intros H. unfold load.
  destruct (Z.leb_spec 0 (Z.of_nat k)); [|lia].
  rewrite Nat2Z.id, H. reflexivity.
Qed.

Lemma load_middle {A} (pre rest : list A) (x : A) :
  load (pre ++ x :: rest) (Z.of_nat (length pre)) = Done x.
Proof. apply load_lookup, list_lookup_middle. reflexivity. Qed.

Lemma store_lookup {A} (m : list A) (k : nat) (x : A) :
  (k < length m)%nat -> store m (Z.of_nat k) x = Done (<[k := x]> m).
Proof.
  intros H. unfold store.
  destruct (Z.leb_spec 0 (Z.of_nat k)); [|lia].
  destruct (Z.ltb_spec (Z.of_nat k) (Z.of_nat (length m))); [|lia].
  simpl. rewrite Nat2Z.id. reflexivity.
Qed.

Lemma store_middle {A} (pre rest : list A) (x y : A) :
  store (pre ++ x :: rest) (Z.of_nat (length pre)) y = Done (pre ++ y :: rest).
Proof.
  rewrite store_lookup by (rewrite length_app; simpl; lia).
  f_equal. rewrite insert_app_r_alt by lia.
  rewrite Nat.sub_diag. reflexivity.
Qed.

(** ** [run_proc] against [advance] *)

Lemma run_proc_loop_spec current run_time rest : forall pre,
  run_proc_loop (length rest) (Z.of_nat (length pre)) current run_time (pre ++ rest)
  = Done (pre ++ imap (fun k => others_wait current run_time
                                  (Z.of_nat (length pre + k))) rest).
Proof.
  induction rest as [|p rest IH]; intros pre; [reflexivity|].
  assert (Hnext : forall q : pcb,
    run_proc_loop (length rest) (Z.of_nat (length pre) + 1) current run_time
      (pre ++ q :: rest)
    = Done (pre ++ q :: imap ((fun k => others_wait current run_time
                                 (Z.of_nat (length pre + k))) ∘ S) rest)).
  { intros q. rewrite cons_middle, app_assoc.
    replace (Z.of_nat (length pre) + 1) with (Z.of_nat (length (pre ++ [q])))
      by (rewrite length_app; simpl; lia).
    rewrite IH, <- app_assoc. simpl. do 3 f_equal.
    apply imap_ext. intros k x _. simpl. unfold others_wait.
    rewrite length_app. simpl.
    replace (Z.of_nat (length pre + 1 + k)) with (Z.of_nat (length pre + S k)) by lia.
    reflexivity. }
  simpl length. cbn [run_proc_loop]. rewrite imap_cons.
  unfold others_wait at 1. rewrite Nat.add_0_r.
  destruct (Z.of_nat (length pre) =? current) eqn:Hcur.
  - apply Hnext.
  - rewrite load_middle. cbn [mbind outcome_bind].
    destruct (burst_left p >? 0) eqn:Hb.
    + rewrite store_middle. cbn [mbind outcome_bind]. apply Hnext.
    + apply Hnext.
Qed.

Lemma run_proc_advance (m : list pcb) (c : nat) (p : pcb) (amount : Z) :
  m !! c = Some p -> 0 < burst_left p -> 0 < amount ->
  run_proc Procs (Z.of_nat (length m)) (Z.of_nat c) amount m
  = Done (advance m c (Z.min amount (burst_left p))).
Proof.
  intros Hc Hb Ha. pose proof (lookup_lt_Some _ _ _ Hc) as Hlt.
  unfold run_proc.
  destruct (Z.leb_spec (Z.of_nat (length m)) 0); [lia|].
  destruct (Z.ltb_spec (Z.of_nat c) 0); [lia|].
  destruct (Z.geb_spec (Z.of_nat c) (Z.of_nat (length m))); [lia|].
  destruct (Z.leb_spec amount 0); [lia|]. cbn [orb].
  rewrite (load_lookup _ _ _ Hc). cbn [mbind outcome_bind].
  destruct (Z.leb_spec (burst_left p) 0); [lia|].
  set (rt := if burst_left p <? amount then burst_left p else amount).
  assert (Hrt : rt = Z.min amount (burst_left p)).
  { subst rt. destruct (Z.ltb_spec (burst_left p) amount); lia. }
  rewrite store_lookup by lia. cbn [mbind outcome_bind].
  rewrite !Nat2Z.id.
  pose proof (run_proc_loop_spec (Z.of_nat c) rt
                (<[c := set_burst_left p (CInt.sub (burst_left p) rt)]> m) []) as Hl.
  cbn [length app Nat.add] in Hl. change (Z.of_nat 0) with 0 in Hl.
  rewrite length_insert in Hl. rewrite Hl. f_equal.
  rewrite <- Hrt. unfold advance. apply list_eq. intros k.
  rewrite !list_lookup_imap. unfold others_wait.
  destruct (decide (k = c)) as [->|Hne].
  - rewrite list_lookup_insert_eq by lia. rewrite Hc. simpl.
    rewrite Z.eqb_refl. reflexivity.
  - rewrite list_lookup_insert_ne by congruence.
    destruct (m !! k) as [q|]; [|reflexivity]. simpl.
    destruct (Z.eqb_spec (Z.of_nat k) (Z.of_nat c)); [lia|]. reflexivity.
Qed.

Lemma length_advance m c rt : length (advance m c rt) = length m.
Proof. apply length_imap. Qed.

Lemma lookup_advance_eq m c rt p :
  m !! c = Some p ->
  advance m c rt !! c = Some (set_burst_left p (CInt.sub (burst_left p) rt)).
Proof.
  intros H. unfold advance. rewrite list_lookup_imap, H. simpl.
  destruct (decide (c = c)); [reflexivity|congruence].
Qed.

Lemma lookup_advance_ne m c rt k q :
  k <> c -> m !! k = Some q ->
  advance m c rt !! k
  = Some (if burst_left q >? 0 then set_wait q (CInt.add (wait q) rt) else q).
Proof.
  intros Hne H. unfold advance. rewrite list_lookup_imap, H. simpl.
  destruct (decide (k = c)); [congruence|reflexivity].
Qed.

Lemma bursts_of_advance m c rt p :
  m !! c = Some p ->
  bursts_of (advance m c rt) = <[c := CInt.sub (burst_left p) rt]> (bursts_of m).
Proof.
  intros Hc. unfold bursts_of. apply list_eq. intros k.
  rewrite list_lookup_fmap.
  destruct (decide (k = c)) as [->|Hne].
  - rewrite (lookup_advance_eq _ _ _ _ Hc).
    rewrite list_lookup_insert_eq; [reflexivity|].
    rewrite length_fmap. eapply lookup_lt_Some, Hc.
  - rewrite list_lookup_insert_ne by congruence. rewrite list_lookup_fmap.
    destruct (m !! k) as [q|] eqn:Hk.
    + rewrite (lookup_advance_ne _ _ _ _ _ Hne Hk). simpl.
      destruct (burst_left q >? 0); reflexivity.
    + unfold advance. rewrite list_lookup_imap, Hk. reflexivity.
Qed.

Lemma run_proc_run (m : list pcb) (plen : Z) (c : nat) (p : pcb) (amount : Z) :
  plen = Z.of_nat (length m) ->
  m !! c = Some p -> 0 < burst_left p -> 0 < amount <= burst_left p ->
  run_proc Procs plen (Z.of_nat c) amount m = Done (advance m c amount).
Proof.
  intros -> Hc Hb Ha. rewrite (run_proc_advance m c p) by (assumption || lia).
  rewrite Z.min_l by lia. reflexivity.
Qed.

(** The guards of [run_proc]: each of them returns with the store as it was. *)
Lemma run_proc_guard (m : list pcb) (procs : pcb_ptr) (current amount : Z) :
  current < 0 \/ Z.of_nat (length m) <= current \/ amount <= 0 \/
  (exists p, m !! Z.to_nat current = Some p /\ burst_left p <= 0) ->
  run_proc procs (Z.of_nat (length m)) current amount m = Done m.
Proof.
  intros H. unfold run_proc. destruct procs; [reflexivity|].
  destruct (Z.leb_spec (Z.of_nat (length m)) 0); [reflexivity|].
  destruct (Z.ltb_spec current 0); [reflexivity|].
  destruct (Z.geb_spec current (Z.of_nat (length m))); [reflexivity|].
  destruct (Z.leb_spec amount 0); [reflexivity|]. cbn [orb].
  destruct H as [H|[H|[H|(p & Hp & Hb)]]]; try lia.
  unfold load. destruct (Z.leb_spec 0 current); [|lia].
  rewrite Hp. cbn [mbind outcome_bind].
  destruct (Z.leb_spec (burst_left p) 0); [reflexivity|lia].
Qed.

(** On a table of [plen] records [run_proc] always returns: either a guard
    fires, or the current process runs. *)
Lemma run_proc_cases (m : list pcb) (procs : pcb_ptr) (current amount : Z) :
  run_proc procs (Z.of_nat (length m)) current amount m = Done m \/
  exists c p, current = Z.of_nat c /\ m !! c = Some p /\ 0 < burst_left p /\
              0 < amount /\
              run_proc procs (Z.of_nat (length m)) current amount m
              = Done (advance m c (Z.min amount (burst_left p))).
Proof.
  destruct procs; [left; reflexivity|].
  destruct (Z.lt_ge_cases current 0) as [Hneg|Hnn].
  { left. apply run_proc_guard. auto. }
  destruct (Z.le_gt_cases (Z.of_nat (length m)) current) as [Hhi|Hlo].
  { left. apply run_proc_guard. auto. }
  destruct (Z.le_gt_cases amount 0) as [Ha|Ha].
  { left. apply run_proc_guard. auto. }
  destruct (lookup_lt_is_Some_2 m (Z.to_nat current)) as [p Hp]; [lia|].
  destruct (Z.le_gt_cases (burst_left p) 0) as [Hb|Hb].
  { left. apply run_proc_guard. eauto 10. }
  right. exists (Z.to_nat current), p.
  rewrite Z2Nat.id by lia. repeat split; try assumption; try lia.
  rewrite <- (Z2Nat.id current) at 1 by lia.
  apply run_proc_advance; assumption || lia.
Qed.

(** ** Sums *)

Lemma sumZ_cons x l : sumZ (x :: l) = x + sumZ l.
Proof. reflexivity. Qed.

Lemma sumZ_app l1 l2 : sumZ (l1 ++ l2) = sumZ l1 + sumZ l2.
Proof. induction l1 as [|x l1 IH]; simpl; lia. Qed.

Lemma sumZ_take_S (l : list Z) i b :
  l !! i = Some b -> sumZ (take (S i) l) = sumZ (take i l) + b.
Proof. intros H. rewrite (take_S_r _ _ _ H), sumZ_app. simpl. lia. Qed.

Lemma sumZ_nonneg l : Forall (fun b => 0 <= b) l -> 0 <= sumZ l.
Proof. induction 1; simpl; lia. Qed.

Lemma sumZ_take_le l i :
  Forall (fun b => 0 <= b) l -> 0 <= sumZ (take i l) <= sumZ l.
Proof.
  intros H. rewrite <- (take_drop i l) at 3. rewrite sumZ_app.
  pose proof (sumZ_nonneg (take i l) (Forall_take _ _ _ H)).
  pose proof (sumZ_nonneg (drop i l) (Forall_drop _ _ _ H)). lia.
Qed.

Lemma sumZ_insert (l : list Z) i b x :
  l !! i = Some b -> sumZ (<[i := x]> l) = sumZ l - b + x.
Proof.
  revert i. induction l as [|y l IH]; intros [|i] H; simplify_eq/=; [lia|].
  rewrite (IH _ H). lia.
Qed.

Lemma sumZ_zero l : Forall (fun b => b = 0) l -> sumZ l = 0.
Proof. induction 1; simpl; lia. Qed.

(** ** [init_procs] *)

Lemma init_procs_loop_spec rest : forall pre procs,
  init_procs_loop (length rest) (Z.of_nat (length pre)) (pre ++ rest) procs
  = Done (procs ++ imap (fun k b => {| pid := Z.of_nat (length pre + k);
                                       burst_left := b; wait := 0 |}) rest).
Proof.
  induction rest as [|b rest IH]; intros pre procs.
  - simpl. rewrite app_nil_r. reflexivity.
  - simpl length. cbn [init_procs_loop]. rewrite load_middle.
    cbn [mbind outcome_bind].
    rewrite cons_middle, app_assoc.
    replace (Z.of_nat (length pre) + 1) with (Z.of_nat (length (pre ++ [b])))
      by (rewrite length_app; simpl; lia).
    rewrite IH, <- app_assoc. simpl. rewrite Nat.add_0_r. do 3 f_equal.
    apply imap_ext. intros k x _. simpl. rewrite length_app. simpl.
    do 2 f_equal. lia.
Qed.

Lemma init_procs_fresh (ok : bool) (bursts : list Z) (m0 : list pcb) :
  init_procs ok (Some bursts) (Z.of_nat (length bursts)) = Done (Some m0) ->
  m0 = fresh_table bursts.
Proof.
  unfold init_procs.
  destruct (Z.of_nat (length bursts) <=? 0); [discriminate|].
  destruct ok; [|discriminate]. simpl negb. cbv iota.
  rewrite Nat2Z.id.
  pose proof (init_procs_loop_spec bursts [] []) as H. simpl in H.
  change (Z.of_nat 0) with 0 in H. rewrite H. cbn [mbind outcome_bind].
  intros [= <-]. reflexivity.
Qed.

Lemma init_procs_returns (bursts : list Z) :
  bursts <> [] ->
  init_procs true (Some bursts) (Z.of_nat (length bursts))
  = Done (Some (fresh_table bursts)).
Proof.
  intros Hne. unfold init_procs.
  destruct (Z.leb_spec (Z.of_nat (length bursts)) 0) as [H|H].
  { destruct bursts; [congruence|simpl in H; lia]. }
  simpl negb. cbv iota. rewrite Nat2Z.id.
  pose proof (init_procs_loop_spec bursts [] []) as Hl. simpl in Hl.
  change (Z.of_nat 0) with 0 in Hl. rewrite Hl. reflexivity.
Qed.

Lemma length_fresh_table bursts : length (fresh_table bursts) = length bursts.
Proof. apply length_imap. Qed.

(** ** The states of FCFS *)

Lemma length_fcfs_state bursts i : length (fcfs_state bursts i) = length bursts.
Proof. apply length_imap. Qed.

Lemma lookup_fcfs_state bursts i k b :
  bursts !! k = Some b ->
  fcfs_state bursts i !! k
  = Some {| pid := Z.of_nat k;
            burst_left := if decide (k < i)%nat then 0 else b;
            wait := if b >? 0
                    then CInt.wrap (sumZ (take (Nat.min k i) bursts))
                    else 0 |}.
Proof. intros H. unfold fcfs_state. rewrite list_lookup_imap, H. reflexivity. Qed.

Lemma fresh_table_fcfs_state bursts : fresh_table bursts = fcfs_state bursts 0.
Proof.
  unfold fresh_table, fcfs_state. apply imap_ext. intros k b _.
  destruct (decide (k < 0)%nat); [lia|].
  rewrite Nat.min_0_r. simpl take. destruct (b >? 0); reflexivity.
Qed.

(** Running process [i] to completion moves from state [i] to state [i+1]. *)
Lemma fcfs_state_advance bursts i b :
  bursts !! i = Some b -> 0 < b ->
  advance (fcfs_state bursts i) i b = fcfs_state bursts (S i).
Proof.
  intros Hi Hb. apply list_eq. intros k.
  destruct (bursts !! k) as [bk|] eqn:Hk.
  2:{ unfold advance, fcfs_state. rewrite !list_lookup_imap, Hk. reflexivity. }
  rewrite (lookup_fcfs_state _ (S i) _ _ Hk).
  destruct (decide (k = i)) as [->|Hne].
  - rewrite (lookup_advance_eq _ _ _ _ (lookup_fcfs_state _ _ _ _ Hi)).
    simplify_eq. unfold set_burst_left. simpl.
    destruct (decide (i < i)%nat); [lia|].
    destruct (decide (i < S i)%nat); [|lia].
    rewrite sub_diag, Nat.min_id, Nat.min_l by lia. reflexivity.
  - rewrite (lookup_advance_ne _ _ _ _ _ Hne (lookup_fcfs_state _ _ _ _ Hk)).
    cbn [burst_left]. destruct (decide (k < i)%nat) as [Hlt|Hge].
    + change (0 >? 0) with false. cbv iota.
      destruct (decide (k < S i)%nat); [|lia].
      rewrite !Nat.min_l by lia. reflexivity.
    + destruct (decide (k < S i)%nat); [lia|].
      destruct (bk >? 0) eqn:Hbk; [|reflexivity].
      unfold set_wait. cbn [burst_left wait pid].
      rewrite !Nat.min_r by lia.
      rewrite add_wrap_l, (sumZ_take_S _ _ _ Hi). reflexivity.
Qed.

(** Processes without work between [i] and [j] change nothing. *)
Lemma fcfs_state_skip bursts i j :
  (i <= j)%nat ->
  (forall k b, (i <= k < j)%nat -> bursts !! k = Some b -> b = 0) ->
  fcfs_state bursts i = fcfs_state bursts j /\
  sumZ (take i bursts) = sumZ (take j bursts).
Proof.
  intros Hij Hz.
  assert (Hsum : forall n, (i <= n <= j)%nat ->
                   sumZ (take n bursts) = sumZ (take i bursts)).
  { induction n as [|n IH]; intros Hn.
    - replace i with 0%nat by lia. reflexivity.
    - destruct (decide (i = S n)) as [->|Hne]; [reflexivity|].
      destruct (bursts !! n) as [b|] eqn:Hb.
      + rewrite (sumZ_take_S _ _ _ Hb), IH by lia.
        rewrite (Hz n b) by (assumption || lia). lia.
      + apply lookup_ge_None_1 in Hb.
        rewrite (take_ge bursts (S n)) by lia. rewrite <- IH by lia.
        rewrite (take_ge bursts n) by lia. reflexivity. }
  split; [|symmetry; apply Hsum; lia].
  unfold fcfs_state. apply imap_ext. intros k b Hk. f_equal.
  - destruct (decide (k < i)%nat), (decide (k < j)%nat); try reflexivity; try lia.
    apply (Hz k); [lia|assumption].
  - destruct (b >? 0) eqn:Hb; [|reflexivity].
    destruct (decide (k < i)%nat).
    + rewrite !Nat.min_l by lia. reflexivity.
    + destruct (decide (k < j)%nat).
      * rewrite (Hz k b) in Hb by (assumption || lia). discriminate.
      * rewrite !Nat.min_r by lia. rewrite (Hsum j) by lia. reflexivity.
Qed.

(** ** The ghost log can be dropped *)

Lemma fcfs_loop_forget n : forall i plen total_time log m,
  fcfs_loop n i plen total_time m
  = forget_log (fcfs_loop_log n i plen total_time log m).
Proof.
  induction n as [|n IH]; intros; [reflexivity|].
  cbn [fcfs_loop fcfs_loop_log].
  destruct (load m i) as [p| |]; try reflexivity. cbn [mbind outcome_bind].
  destruct (burst_left p <=? 0); [apply IH|].
  destruct (run_proc Procs plen i (burst_left p) m) as [m'| |]; try reflexivity.
  cbn [mbind outcome_bind]. apply IH.
Qed.

Lemma fcfs_run_forget procs plen m :
  fcfs_run procs plen m = forget_log (fcfs_run_log procs plen m).
Proof.
  unfold fcfs_run, fcfs_run_log. destruct procs; [reflexivity|].
  destruct (plen <=? 0); [reflexivity|]. apply fcfs_loop_forget.
Qed.

Lemma rr_loop_forget fuel : forall plen quantum current total_time log m,
  rr_loop fuel plen quantum current total_time m
  = forget_log (rr_loop_log fuel plen quantum current total_time log m).
Proof.
  induction fuel as [|fuel IH]; intros; [reflexivity|].
  cbn [rr_loop rr_loop_log].
  destruct (load m current) as [p| |]; try reflexivity. cbn [mbind outcome_bind].
  destruct (burst_left p >? 0).
  - destruct (run_proc Procs plen current _ m) as [m'| |]; try reflexivity.
    cbn [mbind outcome_bind].
    destruct (rr_next current Procs plen m') as [next| |]; try reflexivity.
    cbn [mbind outcome_bind]. destruct (next =? -1); [reflexivity|apply IH].
  - cbn [mbind outcome_bind].
    destruct (rr_next current Procs plen m) as [next| |]; try reflexivity.
    cbn [mbind outcome_bind]. destruct (next =? -1); [reflexivity|apply IH].
Qed.

Lemma rr_run_forget fuel procs plen quantum m :
  rr_run fuel procs plen quantum m
  = forget_log (rr_run_log fuel procs plen quantum m).
Proof.
  unfold rr_run, rr_run_log. destruct procs; [reflexivity|].
  destruct ((plen <=? 0) || (quantum <=? 0)); [reflexivity|].
  destruct (first_with_work (Z.to_nat plen) 0 m) as [c| |]; try reflexivity.
  cbn [mbind outcome_bind]. destruct (c =? -1); [reflexivity|].
  apply rr_loop_forget.
Qed.

(** ** [fcfs_run] on a fresh table *)

Lemma length_burst_runs bursts : forall i,
  (length (burst_runs i bursts) <= length bursts)%nat.
Proof.
  induction bursts as [|b bs IH]; intros i; simpl; [lia|].
  destruct (b >? 0); simpl; specialize (IH (i + 1)); lia.
Qed.

(** Processes without work between [i] and [j] are not run. *)
Lemma burst_runs_skip bursts : forall n i,
  (forall k b, (i <= k < i + n)%nat -> bursts !! k = Some b -> b = 0) ->
  burst_runs (Z.of_nat i) (drop i bursts)
  = burst_runs (Z.of_nat (i + n)) (drop (i + n) bursts).
Proof.
  induction n as [|n IH]; intros i Hz.
  - rewrite Nat.add_0_r. reflexivity.
  - replace (i + S n)%nat with (S i + n)%nat by lia.
    rewrite <- IH by (intros k b Hk; apply Hz; lia).
    destruct (bursts !! i) as [b|] eqn:Hb.
    + rewrite (drop_S _ _ _ Hb). cbn [burst_runs].
      rewrite (Hz i b) by (assumption || lia). change (0 >? 0) with false.
      cbv iota. do 2 f_equal. lia.
    + apply lookup_ge_None_1 in Hb. rewrite !drop_ge by lia. reflexivity.
Qed.

Lemma fcfs_loop_log_state bursts :
  Forall (fun b => 0 <= b) bursts ->
  forall n i log, (i + n = length bursts)%nat ->
  fcfs_loop_log n (Z.of_nat i) (Z.of_nat (length bursts))
    (CInt.wrap (sumZ (take i bursts))) log (fcfs_state bursts i)
  = Done (CInt.wrap (sumZ bursts), fcfs_state bursts (length bursts),
          log ++ burst_runs (Z.of_nat i) (drop i bursts)).
Proof.
  intros Hnn. induction n as [|n IH]; intros i log Hin.
  - replace i with (length bursts) by lia.
    rewrite take_ge, drop_ge, app_nil_r by lia. reflexivity.
  - destruct (lookup_lt_is_Some_2 bursts i) as [b Hb]; [lia|].
    assert (0 <= b) as Hb0.
    { rewrite Forall_lookup in Hnn. apply (Hnn i b Hb). }
    cbn [fcfs_loop_log].
    rewrite (load_lookup _ _ _ (lookup_fcfs_state _ i _ _ Hb)).
    cbn [mbind outcome_bind burst_left].
    destruct (decide (i < i)%nat); [lia|].
    rewrite (drop_S _ _ _ Hb). cbn [burst_runs].
    replace (Z.of_nat i + 1) with (Z.of_nat (S i)) by lia.
    destruct (Z.leb_spec b 0) as [Hz|Hpos].
    + destruct (Z.gtb_spec b 0); [lia|].
      destruct (fcfs_state_skip bursts i (S i)) as [-> ->]; [lia| |].
      { intros k bk Hk Hbk. assert (k = i) by lia. simplify_eq. lia. }
      apply IH. lia.
    + destruct (Z.gtb_spec b 0); [|lia].
      erewrite run_proc_run;
        [|symmetry; f_equal; apply length_fcfs_state
         |apply (lookup_fcfs_state _ i _ _ Hb)|cbn [burst_left]..].
      2,3: destruct (decide (i < i)%nat); lia.
      cbn [mbind outcome_bind].
      rewrite (fcfs_state_advance _ _ _ Hb Hpos).
      rewrite add_wrap_l, <- (sumZ_take_S _ _ _ Hb).
      rewrite IH by lia. rewrite <- app_assoc. reflexivity.
Qed.

Lemma fcfs_run_log_fresh bursts :
  bursts <> [] -> Forall (fun b => 0 <= b) bursts ->
  fcfs_run_log Procs (Z.of_nat (length bursts)) (fresh_table bursts)
  = Done (CInt.wrap (sumZ bursts), fcfs_state bursts (length bursts),
          burst_runs 0 bursts).
Proof.
  intros Hne Hnn. unfold fcfs_run_log.
  destruct (Z.leb_spec (Z.of_nat (length bursts)) 0) as [H|H].
  { destruct bursts; [congruence|simpl in H; lia]. }
  rewrite Nat2Z.id, fresh_table_fcfs_state.
  apply (fcfs_loop_log_state bursts Hnn (length bursts) 0 []). lia.
Qed.

Lemma fcfs_run_fresh bursts :
  bursts <> [] -> Forall (fun b => 0 <= b) bursts ->
  fcfs_run Procs (Z.of_nat (length bursts)) (fresh_table bursts)
  = Done (CInt.wrap (sumZ bursts), fcfs_state bursts (length bursts)).
Proof.
  intros Hne Hnn.
  rewrite fcfs_run_forget, (fcfs_run_log_fresh bursts Hne Hnn). reflexivity.
Qed.

(** ** [rr_next] *)

Lemma not_active_ge m k : (length m <= k)%nat -> ~ active m k.
Proof.
  intros Hk (p & Hp & _). apply lookup_lt_Some in Hp. lia.
Qed.

Lemma active_lt m k : active m k -> (k < length m)%nat.
Proof. intros (p & Hp & _). eapply lookup_lt_Some, Hp. Qed.

Lemma active_lookup m k p :
  m !! k = Some p -> (burst_left p >? 0) = true <-> active m k.
Proof.
  intros Hp. split.
  - intros Hb. exists p. split; [assumption|lia].
  - intros (q & Hq & Hb). simplify_eq. lia.
Qed.

Lemma has_work_loop_spec m : forall n i, (i + n = length m)%nat ->
  (has_work_loop n (Z.of_nat i) m = Done 0 /\
   forall k, (i <= k)%nat -> ~ active m k) \/
  (has_work_loop n (Z.of_nat i) m = Done 1 /\
   exists k, (i <= k)%nat /\ active m k).
Proof.
  induction n as [|n IH]; intros i Hin.
  - left. split; [reflexivity|]. intros k Hk. apply not_active_ge. lia.
  - destruct (lookup_lt_is_Some_2 m i) as [p Hp]; [lia|].
    cbn [has_work_loop]. rewrite (load_lookup _ _ _ Hp).
    cbn [mbind outcome_bind].
    destruct (burst_left p >? 0) eqn:Hb.
    + right. split; [reflexivity|]. exists i. split; [lia|].
      apply (active_lookup _ _ _ Hp), Hb.
    + replace (Z.of_nat i + 1) with (Z.of_nat (S i)) by lia.
      destruct (IH (S i)) as [[-> Hno]|[-> (k & Hk & Ha)]]; [lia| |].
      * left. split; [reflexivity|]. intros k Hk Ha.
        destruct (decide (k = i)) as [->|Hne].
        -- apply (active_lookup _ _ _ Hp) in Ha. congruence.
        -- apply (Hno k); [lia|assumption].
      * right. split; [reflexivity|]. exists k. split; [lia|assumption].
Qed.

Lemma first_with_work_spec m : forall n i, (i + n = length m)%nat ->
  (first_with_work n (Z.of_nat i) m = Done (-1) /\
   forall k, (i <= k)%nat -> ~ active m k) \/
  (exists j, (i <= j)%nat /\
     first_with_work n (Z.of_nat i) m = Done (Z.of_nat j) /\ active m j /\
     forall k, (i <= k < j)%nat -> ~ active m k).
Proof.
  induction n as [|n IH]; intros i Hin.
  - left. split; [reflexivity|]. intros k Hk. apply not_active_ge. lia.
  - destruct (lookup_lt_is_Some_2 m i) as [p Hp]; [lia|].
    cbn [first_with_work]. rewrite (load_lookup _ _ _ Hp).
    cbn [mbind outcome_bind].
    destruct (burst_left p >? 0) eqn:Hb.
    + right. exists i. split; [lia|]. split; [reflexivity|].
      split; [apply (active_lookup _ _ _ Hp), Hb|]. intros k Hk. lia.
    + assert (~ active m i) as Hni.
      { intros Ha. apply (active_lookup _ _ _ Hp) in Ha. congruence. }
      replace (Z.of_nat i + 1) with (Z.of_nat (S i)) by lia.
      destruct (IH (S i)) as [[-> Hno]|(j & Hj & -> & Ha & Hno)]; [lia| |].
      * left. split; [reflexivity|]. intros k Hk.
        destruct (decide (k = i)) as [->|Hne]; [assumption|]. apply Hno. lia.
      * right. exists j. split; [lia|]. split; [reflexivity|].
        split; [assumption|]. intros k Hk.
        destruct (decide (k = i)) as [->|Hne]; [assumption|]. apply Hno. lia.
Qed.

(** The index the scan probes at [offset], when nothing overflows. *)
Lemma scan_index (s o len : nat) :
  (s < len)%nat -> (o < len)%nat -> Z.of_nat len <= 2 ^ 30 ->
  CInt.rem (CInt.add (Z.of_nat s) (Z.of_nat o)) (Z.of_nat len)
  = Z.of_nat (Nat.modulo (s + o) len).
Proof.
  intros Hs Ho Hlen. rewrite add_in_range.
  2:{ unfold CInt.in_range, CInt.int_min, CInt.int_max. lia. }
  unfold CInt.rem. rewrite Z.rem_mod_nonneg by lia.
  rewrite Nat2Z.inj_mod, Nat2Z.inj_add. reflexivity.
Qed.

Lemma rr_next_scan_spec m s :
  (s < length m)%nat -> Z.of_nat (length m) <= 2 ^ 30 ->
  forall n o, (o + n = length m)%nat ->
  (rr_next_scan n (Z.of_nat o) (Z.of_nat s) (Z.of_nat (length m)) m = Done (-1) /\
   forall o', (o <= o' < length m)%nat ->
              ~ active m (Nat.modulo (s + o') (length m))) \/
  (exists o', (o <= o' < length m)%nat /\
     rr_next_scan n (Z.of_nat o) (Z.of_nat s) (Z.of_nat (length m)) m
     = Done (Z.of_nat (Nat.modulo (s + o') (length m))) /\
     active m (Nat.modulo (s + o') (length m)) /\
     forall o'', (o <= o'' < o')%nat ->
                 ~ active m (Nat.modulo (s + o'') (length m))).
Proof.
  intros Hs Hlen. induction n as [|n IH]; intros o Hon.
  - left. split; [reflexivity|]. intros o' Ho'. lia.
  - cbn [rr_next_scan]. rewrite scan_index by lia.
    assert (Nat.modulo (s + o) (length m) < length m)%nat as Hidx
      by (apply Nat.mod_upper_bound; lia).
    destruct (lookup_lt_is_Some_2 m _ Hidx) as [p Hp].
    rewrite (load_lookup _ _ _ Hp). cbn [mbind outcome_bind].
    destruct (burst_left p >? 0) eqn:Hb.
    + right. exists o. split; [lia|]. split; [reflexivity|].
      split; [apply (active_lookup _ _ _ Hp), Hb|]. intros o'' Ho''. lia.
    + assert (~ active m (Nat.modulo (s + o) (length m))) as Hni.
      { intros Ha. apply (active_lookup _ _ _ Hp) in Ha. congruence. }
      replace (Z.of_nat o + 1) with (Z.of_nat (S o)) by lia.
      destruct (IH (S o)) as [[-> Hno]|(o' & Ho' & -> & Ha & Hno)]; [lia| |].
      * left. split; [reflexivity|]. intros o' Ho'.
        destruct (decide (o' = o)) as [->|Hne]; [assumption|]. apply Hno. lia.
      * right. exists o'. split; [lia|]. split; [reflexivity|].
        split; [assumption|]. intros o'' Ho''.
        destruct (decide (o'' = o)) as [->|Hne]; [assumption|]. apply Hno. lia.
Qed.

(** Every index is probed by the circular scan. *)
Lemma scan_reaches (s k len : nat) :
  (s < len)%nat -> (k < len)%nat ->
  exists o, (o < len)%nat /\ Nat.modulo (s + o) len = k.
Proof.
  intros Hs Hk. destruct (le_lt_dec s k) as [Hsk|Hks].
  - exists (k - s)%nat. split; [lia|].
    replace (s + (k - s))%nat with k by lia. apply Nat.mod_small. lia.
  - exists (len - s + k)%nat. split; [lia|].
    replace (s + (len - s + k))%nat with (k + 1 * len)%nat by lia.
    rewrite Nat.Div0.mod_add. apply Nat.mod_small. lia.
Qed.

Lemma rr_next_spec m c :
  (c < length m)%nat -> Z.of_nat (length m) <= 2 ^ 30 ->
  (rr_next (Z.of_nat c) Procs (Z.of_nat (length m)) m = Done (-1) /\
   forall k, ~ active m k) \/
  (exists o, (o < length m)%nat /\
     rr_next (Z.of_nat c) Procs (Z.of_nat (length m)) m
     = Done (Z.of_nat (Nat.modulo (c + 1 + o) (length m))) /\
     active m (Nat.modulo (c + 1 + o) (length m)) /\
     forall o', (o' < o)%nat ->
                ~ active m (Nat.modulo (c + 1 + o') (length m))).
Proof.
  intros Hc Hlen. unfold rr_next.
  destruct (Z.leb_spec (Z.of_nat (length m)) 0); [lia|].
  rewrite Nat2Z.id.
  destruct (has_work_loop_spec m (length m) 0) as [[Hw Hno]|[Hw (k & _ & Hk)]];
    [lia| |]; change (Z.of_nat 0) with 0 in Hw; rewrite Hw;
    cbn [mbind outcome_bind].
  { left. split; [reflexivity|]. intros k. apply Hno. lia. }
  change (1 =? 0) with false. cbv iota.
  replace (CInt.rem (CInt.add (Z.of_nat c) 1) (Z.of_nat (length m)))
    with (Z.of_nat (Nat.modulo (c + 1) (length m))).
  2:{ rewrite add_in_range.
      2:{ unfold CInt.in_range, CInt.int_min, CInt.int_max. lia. }
      unfold CInt.rem. rewrite Z.rem_mod_nonneg by lia.
      rewrite Nat2Z.inj_mod, Nat2Z.inj_add. reflexivity. }
  assert (Nat.modulo (c + 1) (length m) < length m)%nat as Hs
    by (apply Nat.mod_upper_bound; lia).
  assert (forall o, Nat.modulo (Nat.modulo (c + 1) (length m) + o) (length m)
                    = Nat.modulo (c + 1 + o) (length m)) as Hmod.
  { intros o. apply Nat.Div0.add_mod_idemp_l. }
  destruct (rr_next_scan_spec m _ Hs Hlen (length m) 0)
    as [[_ Hno]|(o & Ho & Hr & Ha & Hno)]; [lia| |].
  - exfalso. destruct (scan_reaches _ k _ Hs (active_lt _ _ Hk)) as (o & Ho & Heq).
    apply (Hno o); [lia|]. rewrite Heq. assumption.
  - right. exists o. split; [lia|]. change (Z.of_nat 0) with 0 in Hr.
    rewrite Hr, Hmod in *. split; [reflexivity|]. split; [exact Ha|].
    intros o' Ho'. rewrite <- Hmod. apply Hno. lia.
Qed.

(** ** Records of the advanced table *)

Lemma lookup_advance_inv m c rt k q' :
  advance m c rt !! k = Some q' ->
  exists q, m !! k = Some q /\ pid q' = pid q /\
    burst_left q' = (if decide (k = c) then CInt.sub (burst_left q) rt
                     else burst_left q) /\
    wait q' = (if decide (k = c) then wait q
               else if burst_left q >? 0 then CInt.add (wait q) rt
                    else wait q).
Proof.
  unfold advance. rewrite list_lookup_imap_Some. intros (q & Hq & ->).
  exists q. split; [assumption|].
  destruct (decide (k = c)); [repeat split|].
  destruct (burst_left q >? 0); repeat split.
Qed.

(** ** Quanta *)

Lemma slices_zero q : 0 < q -> slices q 0 = 0.
Proof. intros Hq. unfold slices. apply Z.div_small. lia. Qed.

Lemma slices_nonneg q b : 0 < q -> 0 <= b -> 0 <= slices q b.
Proof. intros Hq Hb. unfold slices. apply Z.div_pos; lia. Qed.

Lemma slices_pos q b : 0 < q -> 0 < b -> 1 <= slices q b.
Proof.
  intros Hq Hb. unfold slices.
  apply Z.div_le_lower_bound; lia.
Qed.

Lemma slices_le q b : 0 < q -> 0 <= b -> slices q b <= b.
Proof.
  intros Hq Hb. unfold slices.
  destruct (Z.eq_dec b 0) as [->|Hne].
  - rewrite Z.div_small; lia.
  - apply Z.div_le_upper_bound; nia.
Qed.

Lemma slices_step q b :
  0 < q -> 0 < b -> slices q (b - Z.min b q) = slices q b - 1.
Proof.
  intros Hq Hb. unfold slices.
  destruct (Z.le_gt_cases b q) as [Hle|Hgt].
  - rewrite Z.min_l by lia.
    replace (b - b + q - 1) with (q - 1) by lia.
    rewrite (Z.div_small (q - 1)) by lia.
    replace (b + q - 1) with ((b - 1) + 1 * q) by lia.
    rewrite Z.div_add by lia. rewrite Z.div_small; lia.
  - rewrite Z.min_r by lia.
    replace (b + q - 1) with ((b - q + q - 1) + 1 * q) by lia.
    rewrite Z.div_add by lia. lia.
Qed.

Lemma sumZ_lookup_le (l : list Z) i x :
  Forall (fun b => 0 <= b) l -> l !! i = Some x -> x <= sumZ l.
Proof.
  intros Hnn. revert i. induction Hnn as [|y l Hy Hl IH]; intros [|i] H;
    simplify_eq/=.
  - pose proof (sumZ_nonneg l Hl). lia.
  - specialize (IH _ H). lia.
Qed.

Lemma total_slices_nonneg q bs :
  0 < q -> Forall (fun b => 0 <= b) bs ->
  Forall (fun s => 0 <= s) (slices q <$> bs).
Proof.
  intros Hq H. apply Forall_fmap. eapply Forall_impl; [exact H|].
  intros b Hb. simpl. apply slices_nonneg; assumption.
Qed.

Lemma total_slices_le q bs :
  0 < q -> Forall (fun b => 0 <= b) bs -> total_slices q bs <= sumZ bs.
Proof.
  intros Hq H. unfold total_slices.
  induction H as [|b bs Hb Hbs IH]; [reflexivity|].
  rewrite fmap_cons, !sumZ_cons.
  pose proof (slices_le q b Hq Hb). lia.
Qed.

Lemma total_slices_zero q bs :
  0 < q -> Forall (fun b => b = 0) bs -> total_slices q bs = 0.
Proof.
  intros Hq H. unfold total_slices.
  induction H as [|b bs Hb Hbs IH]; [reflexivity|].
  rewrite fmap_cons, sumZ_cons.
  subst b. rewrite slices_zero by lia. lia.
Qed.

(** ** [rr_run] in general *)

Lemma not_active_finished m :
  Forall (fun p => 0 <= burst_left p) m -> (forall k, ~ active m k) ->
  Forall (fun p => burst_left p = 0) m.
Proof.
  intros Hnn Hno. apply Forall_lookup. intros k p Hp.
  rewrite Forall_lookup in Hnn. specialize (Hnn k p Hp). simpl in Hnn.
  destruct (Z.eq_dec (burst_left p) 0) as [|Hne]; [assumption|].
  exfalso. apply (Hno k). exists p. split; [assumption|lia].
Qed.

Lemma quantum_min b q : (if b <? q then b else q) = Z.min b q.
Proof. destruct (Z.ltb_spec b q); lia. Qed.

Lemma rr_loop_log_spec q : 0 < q ->
  forall fuel m c total log,
  Z.of_nat (length m) <= 2 ^ 30 ->
  int_bursts m ->
  active m c ->
  total_slices q (bursts_of m) <= Z.of_nat fuel ->
  exists m' log',
    rr_loop_log fuel (Z.of_nat (length m)) q (Z.of_nat c) total log m
    = Done (CInt.wrap (total + sumZ (bursts_of m)), m', log')
    /\ length m' = length m
    /\ Forall (fun p => burst_left p = 0) m'
    /\ Z.of_nat (length log')
       = Z.of_nat (length log) + total_slices q (bursts_of m).
Proof.
  intros Hq. unfold int_bursts. induction fuel as [|fuel IH];
    intros m c total log Hlen Hwf (p & Hp & Hb) Hfuel.
  all: assert (bursts_of m !! c = Some (burst_left p)) as Hbc
         by (unfold bursts_of; rewrite list_lookup_fmap, Hp; reflexivity).
  all: assert (Forall (fun b => 0 <= b) (bursts_of m)) as Hnn
         by (apply Forall_fmap; eapply Forall_impl; [exact Hwf|]; simpl; intros; lia).
  all: assert (slices q (burst_left p) <= total_slices q (bursts_of m)) as Hsl
         by (apply (sumZ_lookup_le _ c);
             [apply total_slices_nonneg; assumption
             |rewrite list_lookup_fmap, Hbc; reflexivity]).
  all: pose proof (slices_pos q _ Hq Hb) as Hs1.
  { lia. }
  cbn [rr_loop_log]. rewrite (load_lookup _ _ _ Hp). cbn [mbind outcome_bind].
  destruct (Z.gtb_spec (burst_left p) 0) as [_|]; [|lia].
  rewrite quantum_min.
  set (rt := Z.min (burst_left p) q).
  assert (0 <= burst_left p <= CInt.int_max) as Hpr.
  { rewrite Forall_lookup in Hwf. apply (Hwf c p Hp). }
  rewrite (run_proc_run m _ c p rt) by (reflexivity || assumption || lia).
  cbn [mbind outcome_bind].
  set (m1 := advance m c rt).
  assert (length m1 = length m) as Hlen1 by apply length_advance.
  assert (bursts_of m1 = <[c := burst_left p - rt]> (bursts_of m)) as Hb1.
  { subst m1. rewrite (bursts_of_advance _ _ _ _ Hp), sub_in_range; [reflexivity|].
    unfold CInt.in_range, CInt.int_min. lia. }
  assert (sumZ (bursts_of m1) = sumZ (bursts_of m) - rt) as Hsum1.
  { rewrite Hb1, (sumZ_insert _ _ _ _ Hbc). lia. }
  assert (total_slices q (bursts_of m1) = total_slices q (bursts_of m) - 1) as Hts1.
  { unfold total_slices. rewrite Hb1, list_fmap_insert.
    erewrite sumZ_insert by (rewrite list_lookup_fmap, Hbc; reflexivity).
    subst rt. rewrite slices_step by lia. lia. }
  assert (Forall (fun p => 0 <= burst_left p <= CInt.int_max) m1) as Hwf1.
  { apply Forall_lookup. intros k q' Hq'.
    destruct (lookup_advance_inv _ _ _ _ _ Hq') as (q0 & Hq0 & _ & Hbq & _).
    rewrite Forall_lookup in Hwf. pose proof (Hwf k q0 Hq0) as Hr. simpl in Hr.
    simpl. rewrite Hbq. destruct (decide (k = c)) as [->|]; [|lia].
    simplify_eq. rewrite sub_in_range; [lia|].
    unfold CInt.in_range, CInt.int_min. lia. }
  rewrite <- Hlen1.
  destruct (rr_next_spec m1 c) as [[-> Hno]|(o & Ho & -> & Ha & _)];
    [apply lookup_lt_Some in Hp; lia|lia| |]; cbn [mbind outcome_bind].
  - change (-1 =? -1) with true. cbv iota.
    exists m1, (log ++ [(Z.of_nat c, rt)]).
    assert (Forall (fun p => burst_left p = 0) m1) as Hfin.
    { apply not_active_finished; [|assumption].
      eapply Forall_impl; [exact Hwf1|]. simpl. intros; lia. }
    assert (Forall (fun b => b = 0) (bursts_of m1)) as Hz
      by (apply Forall_fmap; exact Hfin).
    pose proof (sumZ_zero _ Hz). pose proof (total_slices_zero q _ Hq Hz).
    split; [|split; [reflexivity|split; [assumption|]]].
    + do 3 f_equal. unfold CInt.add. f_equal. lia.
    + rewrite length_app. simpl. lia.
  - set (j := Nat.modulo (c + 1 + o) (length m1)) in *.
    destruct (Z.eqb_spec (Z.of_nat j) (-1)); [lia|].
    destruct (IH m1 j (CInt.add total rt) (log ++ [(Z.of_nat c, rt)]))
      as (m' & log' & -> & Hl' & Hfin & Hlog);
      [lia|assumption|assumption|lia|].
    exists m', log'. split; [|split; [lia|split; [assumption|]]].
    + do 3 f_equal. unfold CInt.add. rewrite wrap_add_wrap_l. f_equal. lia.
    + rewrite Hlog, length_app. simpl. lia.
Qed.

Lemma rr_run_log_spec q m fuel :
  0 < q -> m <> [] -> Z.of_nat (length m) <= 2 ^ 30 ->
  int_bursts m ->
  total_slices q (bursts_of m) <= Z.of_nat fuel ->
  exists m' log,
    rr_run_log fuel Procs (Z.of_nat (length m)) q m
    = Done (CInt.wrap (sumZ (bursts_of m)), m', log)
    /\ length m' = length m
    /\ Forall (fun p => burst_left p = 0) m'
    /\ Z.of_nat (length log) = total_slices q (bursts_of m).
Proof.
  intros Hq Hne Hlen Hwf Hfuel. unfold rr_run_log.
  destruct (Z.leb_spec (Z.of_nat (length m)) 0) as [H|_].
  { destruct m; [congruence|simpl in H; lia]. }
  destruct (Z.leb_spec q 0); [lia|]. cbn [orb]. rewrite Nat2Z.id.
  destruct (first_with_work_spec m (length m) 0)
    as [[Hr Hno]|(j & _ & Hr & Ha & _)]; [lia| |];
    change (Z.of_nat 0) with 0 in Hr; rewrite Hr; cbn [mbind outcome_bind].
  - change (-1 =? -1) with true. cbv iota. exists m, [].
    assert (Forall (fun p => burst_left p = 0) m) as Hfin.
    { apply not_active_finished.
      - eapply Forall_impl; [exact Hwf|]. simpl. intros; lia.
      - intros k. apply Hno. lia. }
    assert (Forall (fun b => b = 0) (bursts_of m)) as Hz
      by (apply Forall_fmap; exact Hfin).
    rewrite (sumZ_zero _ Hz), (total_slices_zero q _ Hq Hz).
    split; [reflexivity|]. split; [reflexivity|]. split; [assumption|reflexivity].
  - destruct (Z.eqb_spec (Z.of_nat j) (-1)); [lia|].
    destruct (rr_loop_log_spec q Hq fuel m j 0 [] Hlen Hwf Ha Hfuel)
      as (m' & log & -> & Hl & Hfin & Hlog).
    exists m', log. split; [reflexivity|]. split; [assumption|].
    split; [assumption|]. simpl in Hlog. lia.
Qed.

Lemma bursts_of_fresh_table bursts : bursts_of (fresh_table bursts) = bursts.
Proof.
  unfold bursts_of, fresh_table. rewrite fmap_imap.
  rewrite <- (list_fmap_id bursts) at 2. rewrite <- imap_const.
  apply imap_ext. reflexivity.
Qed.

Lemma fresh_table_bursts_range bursts (P : Z -> Prop) :
  Forall P bursts -> Forall (fun p => P (burst_left p)) (fresh_table bursts).
Proof.
  intros H. rewrite <- (bursts_of_fresh_table bursts) in H.
  unfold bursts_of in H. rewrite Forall_fmap in H. exact H.
Qed.

Lemma fresh_table_nonempty bursts : bursts <> [] -> fresh_table bursts <> [].
Proof.
  intros Hne Hm. apply (f_equal length) in Hm.
  rewrite length_fresh_table in Hm. destruct bursts; [congruence|discriminate].
Qed.

(** ** [rr_run] with a quantum no burst exceeds *)

Lemma active_fcfs_state bursts n k :
  active (fcfs_state bursts n) k <->
  (n <= k)%nat /\ exists b, bursts !! k = Some b /\ 0 < b.
Proof.
  unfold active. split.
  - intros (p & Hp & Hb). unfold fcfs_state in Hp.
    apply list_lookup_imap_Some in Hp as (b & Hk & ->). cbn [burst_left] in Hb.
    destruct (decide (k < n)%nat); [lia|]. split; [lia|]. eauto.
  - intros (Hn & b & Hk & Hb). eexists. split; [apply lookup_fcfs_state, Hk|].
    cbn [burst_left]. destruct (decide (k < n)%nat); lia.
Qed.

Lemma rr_loop_log_big_quantum bursts q :
  Forall (fun b => 0 <= b <= q) bursts ->
  Z.of_nat (length bursts) <= 2 ^ 30 ->
  forall fuel i b log,
  bursts !! i = Some b -> 0 < b -> (length bursts - i <= fuel)%nat ->
  rr_loop_log fuel (Z.of_nat (length bursts)) q (Z.of_nat i)
    (CInt.wrap (sumZ (take i bursts))) log (fcfs_state bursts i)
  = Done (CInt.wrap (sumZ bursts), fcfs_state bursts (length bursts),
          log ++ burst_runs (Z.of_nat i) (drop i bursts)).
Proof.
  intros Hbq Hlen.
  assert (Hzero : forall k bk, bursts !! k = Some bk -> ~ 0 < bk -> bk = 0).
  { intros k bk Hk Hn. rewrite Forall_lookup in Hbq.
    pose proof (Hbq k bk Hk) as Hr. simpl in Hr. lia. }
  induction fuel as [|fuel IH]; intros i b log Hi Hb Hfuel;
    pose proof (lookup_lt_Some _ _ _ Hi) as Hlt; [lia|].
  cbn [rr_loop_log]. rewrite (load_lookup _ _ _ (lookup_fcfs_state _ i _ _ Hi)).
  cbn [mbind outcome_bind burst_left].
  destruct (decide (i < i)%nat); [lia|].
  destruct (Z.gtb_spec b 0) as [_|]; [|lia].
  rewrite quantum_min, Z.min_l.
  2:{ rewrite Forall_lookup in Hbq. apply (Hbq i b Hi). }
  erewrite run_proc_run;
    [|symmetry; f_equal; apply length_fcfs_state
     |apply (lookup_fcfs_state _ i _ _ Hi)|cbn [burst_left]..].
  2,3: destruct (decide (i < i)%nat); lia.
  cbn [mbind outcome_bind].
  rewrite (fcfs_state_advance _ _ _ Hi Hb).
  rewrite add_wrap_l, <- (sumZ_take_S _ _ _ Hi).
  rewrite (drop_S _ _ _ Hi). cbn [burst_runs].
  destruct (Z.gtb_spec b 0) as [_|]; [|lia].
  replace (Z.of_nat i + 1) with (Z.of_nat (S i)) by lia.
  rewrite <- (length_fcfs_state bursts (S i)).
  destruct (rr_next_spec (fcfs_state bursts (S i)) i)
    as [[-> Hno]|(o & Ho & -> & Ha & Hfirst)];
    rewrite ?length_fcfs_state in *; [lia|lia| |]; cbn [mbind outcome_bind].
  - change (-1 =? -1) with true. cbv iota.
    assert (Hrest : forall k bk, (S i <= k < S i + (length bursts - S i))%nat ->
                      bursts !! k = Some bk -> bk = 0).
    { intros k bk Hk Hbk. apply (Hzero k bk Hbk). intros Hpos.
      apply (Hno k), active_fcfs_state. split; [lia|]. eauto. }
    destruct (fcfs_state_skip bursts (S i) (length bursts)) as [-> ->]; [lia| |].
    { intros k bk Hk. apply Hrest. lia. }
    rewrite (burst_runs_skip bursts (length bursts - S i) (S i) Hrest).
    rewrite take_ge, drop_ge by lia. reflexivity.
  - set (j := Nat.modulo (i + 1 + o) (length bursts)) in *.
    destruct (Z.eqb_spec (Z.of_nat j) (-1)); [lia|].
    apply active_fcfs_state in Ha as (Hij & bj & Hj & Hbj).
    assert (i + 1 + o < length bursts)%nat as Hsmall.
    { destruct (le_lt_dec (length bursts) (i + 1 + o)) as [Hbig|]; [|assumption].
      exfalso. subst j.
      replace (i + 1 + o)%nat
        with ((i + 1 + o - length bursts) + 1 * length bursts)%nat in Hij by lia.
      rewrite Nat.Div0.mod_add, Nat.mod_small in Hij by lia. lia. }
    assert (j = (S i + o)%nat) as Hjv by (subst j; rewrite Nat.mod_small; lia).
    assert (Hrest : forall k bk, (S i <= k < S i + o)%nat ->
                      bursts !! k = Some bk -> bk = 0).
    { intros k bk Hk Hbk. apply (Hzero k bk Hbk). intros Hpos.
      apply (Hfirst (k - (i + 1))%nat); [lia|].
      replace (i + 1 + (k - (i + 1)))%nat with k by lia.
      rewrite Nat.mod_small by lia.
      apply active_fcfs_state. split; [lia|]. eauto. }
    destruct (fcfs_state_skip bursts (S i) j) as [-> ->]; [lia| |].
    { intros k bk Hk. apply Hrest. lia. }
    rewrite (burst_runs_skip bursts o (S i) Hrest), <- Hjv.
    rewrite (IH j bj _ Hj Hbj) by lia. rewrite <- app_assoc. reflexivity.
Qed.

Lemma rr_run_log_big_quantum bursts q fuel :
  bursts <> [] ->
  Forall (fun b => 0 <= b <= q) bursts ->
  Z.of_nat (length bursts) <= 2 ^ 30 ->
  (length bursts <= fuel)%nat ->
  rr_run_log fuel Procs (Z.of_nat (length bursts)) q (fresh_table bursts)
  = Done (CInt.wrap (sumZ bursts), fcfs_state bursts (length bursts),
          burst_runs 0 bursts).
Proof.
  intros Hne Hbq Hlen Hfuel.
  assert (Hzero : forall k bk, bursts !! k = Some bk -> ~ 0 < bk -> bk = 0).
  { intros k bk Hk Hn. rewrite Forall_lookup in Hbq.
    pose proof (Hbq k bk Hk) as Hr. simpl in Hr. lia. }
  assert (Hidle : (forall k, ~ active (fresh_table bursts) k) ->
            (0, fresh_table bursts, @nil (Z * Z))
            = (CInt.wrap (sumZ bursts), fcfs_state bursts (length bursts),
               burst_runs 0 bursts)).
  { intros Hno. rewrite fresh_table_fcfs_state in *.
    assert (Hrest : forall k bk, (0 <= k < 0 + length bursts)%nat ->
                      bursts !! k = Some bk -> bk = 0).
    { intros k bk Hk Hbk. apply (Hzero k bk Hbk). intros Hpos.
      apply (Hno k), active_fcfs_state. split; [lia|]. eauto. }
    destruct (fcfs_state_skip bursts 0 (length bursts)) as [<- Hs]; [lia| |].
    { intros k bk Hk. apply Hrest. lia. }
    rewrite (take_ge bursts (length bursts)) in Hs by lia. rewrite <- Hs.
    pose proof (burst_runs_skip bursts (length bursts) 0 Hrest) as Hruns.
    rewrite drop_0 in Hruns. change (Z.of_nat 0) with 0 in Hruns.
    rewrite Hruns, drop_ge by (simpl; lia). reflexivity. }
  unfold rr_run_log.
  destruct (Z.leb_spec (Z.of_nat (length bursts)) 0) as [H|_].
  { destruct bursts; [congruence|simpl in H; lia]. }
  cbn [orb].
  destruct (Z.leb_spec q 0) as [Hq0|Hq].
  { f_equal. apply Hidle. intros k (p & Hp & Hb).
    unfold fresh_table in Hp. apply list_lookup_imap_Some in Hp as (b & Hk & ->).
    cbn [burst_left] in Hb. rewrite Forall_lookup in Hbq.
    pose proof (Hbq k b Hk) as Hr. simpl in Hr. lia. }
  rewrite Nat2Z.id.
  pose proof (first_with_work_spec (fresh_table bursts) (length bursts) 0) as Hf.
  rewrite length_fresh_table in Hf. change (Z.of_nat 0) with 0 in Hf.
  destruct Hf as [[-> Hno]|(j & _ & -> & Ha & Hfirst)]; [lia| |];
    cbn [mbind outcome_bind].
  - change (-1 =? -1) with true. cbv iota. f_equal. apply Hidle.
    intros k. apply Hno. lia.
  - destruct (Z.eqb_spec (Z.of_nat j) (-1)); [lia|].
    rewrite fresh_table_fcfs_state in *.
    apply active_fcfs_state in Ha as (_ & bj & Hj & Hbj).
    assert (Hrest : forall k bk, (0 <= k < 0 + j)%nat ->
                      bursts !! k = Some bk -> bk = 0).
    { intros k bk Hk Hbk. apply (Hzero k bk Hbk). intros Hpos.
      apply (Hfirst k); [lia|]. apply active_fcfs_state. split; [lia|]. eauto. }
    destruct (fcfs_state_skip bursts 0 j) as [-> Hs]; [lia| |].
    { intros k bk Hk. apply Hrest. lia. }
    pose proof (burst_runs_skip bursts j 0 Hrest) as Hruns.
    rewrite drop_0 in Hruns. change (Z.of_nat 0) with 0 in Hruns.
    rewrite Hruns. change (0 + j)%nat with j.
    change 0 with (CInt.wrap (sumZ (take 0 bursts))) at 1. rewrite Hs.
    apply (rr_loop_log_big_quantum bursts q Hbq Hlen fuel j bj [] Hj Hbj). lia.
Qed.

Lemma rr_run_big_quantum bursts q fuel :
  bursts <> [] ->
  Forall (fun b => 0 <= b <= q) bursts ->
  Z.of_nat (length bursts) <= 2 ^ 30 ->
  (length bursts <= fuel)%nat ->
  rr_run fuel Procs (Z.of_nat (length bursts)) q (fresh_table bursts)
  = Done (CInt.wrap (sumZ bursts), fcfs_state bursts (length bursts)).
Proof.
  intros Hne Hbq Hlen Hfuel.
  rewrite rr_run_forget, (rr_run_log_big_quantum bursts q fuel) by assumption.
  reflexivity.
Qed.

(** ** What calls of [run_proc] preserve *)

(** An invariant [Inv] of the table and a relation [R] between a record
    before and after, both kept by [advance], are kept by any number of
    calls of [run_proc]. *)
Section calls.

Variable Inv : list pcb -> Prop.
Variable R : pcb -> pcb -> Prop.
Hypothesis R_refl : forall m, Inv m -> Forall2 R m m.
Hypothesis R_trans : forall p1 p2 p3, R p1 p2 -> R p2 p3 -> R p1 p3.
Hypothesis R_advance : forall m c p rt,
  Inv m -> m !! c = Some p -> 0 < rt <= burst_left p ->
  Inv (advance m c rt) /\ Forall2 R m (advance m c rt).

Lemma progress_trans m1 m2 m3 :
  Forall2 R m1 m2 -> Forall2 R m2 m3 -> Forall2 R m1 m3.
Proof.
  intros H12. revert m3. induction H12 as [|p1 p2 m1 m2 Hp H12 IH]; intros m3 H23.
  - inversion H23. constructor.
  - inversion H23 as [|? p3 ? m3' Hp' H23']; subst. constructor.
    + eapply R_trans; eassumption.
    + apply IH, H23'.
Qed.

Lemma run_proc_call_preserves m m' :
  Inv m -> run_proc_call m m' -> Inv m' /\ Forall2 R m m'.
Proof.
  intros Hinv (procs & current & amount & Hcall).
  destruct (run_proc_cases m procs current amount)
    as [Hsame|(c & p & -> & Hc & Hb & Ha & Hrun)].
  - rewrite Hsame in Hcall. simplify_eq. split; [assumption|apply R_refl, Hinv].
  - rewrite Hrun in Hcall. simplify_eq. apply (R_advance m c p); [assumption..|lia].
Qed.

Lemma run_proc_calls_preserve m m' :
  Inv m -> rtc run_proc_call m m' -> Inv m' /\ Forall2 R m m'.
Proof.
  intros Hinv Hcalls. induction Hcalls as [m|m m1 m' Hcall Hcalls IH].
  - split; [assumption|apply R_refl, Hinv].
  - destruct (run_proc_call_preserves _ _ Hinv Hcall) as [Hinv1 Hp1].
    destruct (IH Hinv1) as [Hinv' Hp']. split; [assumption|].
    eapply progress_trans; eassumption.
Qed.

End calls.

(** *** Bursts *)




(** *** Waits *)







(** * The claims of the design document *)

(** ** The scenarios of the design document *)

Example scenario_fcfs :
  fcfs_run Procs 3 [mkpcb 0 5 0; mkpcb 1 3 0; mkpcb 2 8 0]
  = Done (16, [mkpcb 0 0 0; mkpcb 1 0 5; mkpcb 2 0 8]).
Proof. reflexivity. Qed.

Example scenario_rr :
  rr_run 5 Procs 3 4 [mkpcb 0 5 0; mkpcb 1 3 0; mkpcb 2 8 0]
  = Done (16, [mkpcb 0 0 7; mkpcb 1 0 4; mkpcb 2 0 8]).
Proof. reflexivity. Qed.

Example scenario_single :
  fcfs_run Procs 1 [mkpcb 0 7 0] = Done (7, [mkpcb 0 0 0]) /\
  rr_run 4 Procs 1 3 [mkpcb 0 7 0] = Done (7, [mkpcb 0 0 0]).
Proof. split; reflexivity. Qed.

(** ** Time-step engine *)

(** C1. On any table whose fields are ints, for an in-range [c] whose record
    has work and a positive [amount], [run_proc] returns; with
    [run_time = min amount (burst_left of c)], the record [c] has its
    [burst_left] decreased by exactly [run_time] and nothing else changed;
    every other record keeps its [pid] and [burst_left]; every other record
    that had [burst_left > 0] has [wait] increased by [run_time] (the [int]
    addition of the program, which is the exact sum whenever that sum fits
    an [int]); and every other record without work is left as it was. *)
Theorem run_proc_runs_current (m : list pcb) (c : nat) (p : pcb) (amount : Z) :
  Forall (fun q => CInt.in_range (burst_left q) /\ CInt.in_range (wait q)) m ->
  m !! c = Some p -> 0 < burst_left p -> 0 < amount ->
  exists m',
    run_proc Procs (Z.of_nat (length m)) (Z.of_nat c) amount m = Done m' /\
    length m' = length m /\
    forall j q, m !! j = Some q ->
      exists q', m' !! j = Some q' /\ pid q' = pid q /\
        (j = c -> burst_left q' = burst_left q - Z.min amount (burst_left p) /\
                  wait q' = wait q) /\
        (j <> c -> burst_left q' = burst_left q) /\
        (j <> c -> 0 < burst_left q ->
           wait q' = CInt.add (wait q) (Z.min amount (burst_left p)) /\
           (wait q + Z.min amount (burst_left p) <= CInt.int_max ->
            wait q' = wait q + Z.min amount (burst_left p))) /\
        (j <> c -> burst_left q <= 0 -> q' = q).
Proof.
  intros Hint Hc Hb Ha. set (rt := Z.min amount (burst_left p)).
  exists (advance m c rt). split; [apply run_proc_advance; assumption|].
  split; [apply length_advance|]. intros j q Hq.
  rewrite Forall_lookup in Hint.
  destruct (Hint j q Hq) as [Hbq Hwq]. unfold CInt.in_range in Hbq, Hwq.
  destruct (decide (j = c)) as [->|Hne].
  - simplify_eq. eexists. split; [apply lookup_advance_eq, Hc|].
    unfold set_burst_left. cbn [pid burst_left wait].
    split; [reflexivity|]. split; [|repeat split; congruence].
    intros _. split; [|reflexivity]. apply sub_in_range.
    subst rt. int_lia.
  - eexists. split; [apply (lookup_advance_ne _ _ _ _ _ Hne Hq)|].
    destruct (Z.gtb_spec (burst_left q) 0) as [Hpos|Hz];
      unfold set_wait; cbn [pid burst_left wait].
    + split; [reflexivity|]. split; [congruence|]. split; [reflexivity|].
      split; [|intros; lia]. intros _ _. split; [reflexivity|].
      intros Hfit. apply add_in_range. subst rt. int_lia.
    + split; [reflexivity|]. split; [congruence|]. split; [reflexivity|].
      split; [intros; lia|reflexivity].
Qed.

Lemma run_proc_runs_current_witness :
  exists m',
    run_proc Procs 3 0 4 [mkpcb 0 5 0; mkpcb 1 3 2; mkpcb 2 0 7] = Done m' /\
    m' !! 0%nat = Some (mkpcb 0 1 0) /\
    m' !! 1%nat = Some (mkpcb 1 3 6) /\
    m' !! 2%nat = Some (mkpcb 2 0 7).
Proof.
  destruct (run_proc_runs_current
              [mkpcb 0 5 0; mkpcb 1 3 2; mkpcb 2 0 7] 0 (mkpcb 0 5 0) 4)
    as (m' & Hrun & _ & _).
  - repeat first [apply Forall_nil | apply Forall_cons | split];
      cbn [burst_left wait]; unfold CInt.int_min, CInt.int_max; lia.
  - reflexivity.
  - cbn [burst_left]. lia.
  - lia.
  - exists m'. split; [exact Hrun|].
    cbv in Hrun. injection Hrun as <-. repeat split.
Defined.

(** C1, where the increment is not exact.  On the table created from the
    bursts [INT_MAX], [INT_MAX], 1, running process 0 to its end leaves
    processes 1 and 2 with [wait = INT_MAX] and work to do.  Process 1 is
    then in range and has work, and it is run for a positive amount: the
    [wait] of process 2, which has work, goes from [INT_MAX] to [-2], which
    is not [INT_MAX] plus the run time. *)
Lemma run_proc_wait_wraps :
  init_procs true (Some [2147483647; 2147483647; 1]) 3
  = Done (Some [mkpcb 0 2147483647 0; mkpcb 1 2147483647 0; mkpcb 2 1 0]) /\
  run_proc Procs 3 0 2147483647
    [mkpcb 0 2147483647 0; mkpcb 1 2147483647 0; mkpcb 2 1 0]
  = Done [mkpcb 0 0 0; mkpcb 1 2147483647 2147483647; mkpcb 2 1 2147483647] /\
  run_proc Procs 3 1 2147483647
    [mkpcb 0 0 0; mkpcb 1 2147483647 2147483647; mkpcb 2 1 2147483647]
  = Done [mkpcb 0 0 0; mkpcb 1 0 2147483647; mkpcb 2 1 (-2)] /\
  0 < burst_left (mkpcb 1 2147483647 2147483647) /\
  0 < burst_left (mkpcb 2 1 2147483647) /\
  wait (mkpcb 2 1 (-2))
  <> wait (mkpcb 2 1 2147483647)
     + Z.min 2147483647 (burst_left (mkpcb 1 2147483647 2147483647)).
Proof.
  split; [reflexivity|]. split; [vm_compute; reflexivity|].
  split; [vm_compute; reflexivity|]. split; [reflexivity|].
  split; [reflexivity|]. vm_compute. discriminate.
Qed.

(** C8. Whatever the table, a call of [run_proc] with [current] out of range,
    with a non-positive [amount], or with a [current] whose record has no
    work left returns (it is not an access outside the array) and leaves the
    store exactly as it was. *)
Theorem run_proc_noop (m : list pcb) (procs : pcb_ptr) (current amount : Z) :
  current < 0 \/ Z.of_nat (length m) <= current \/ amount <= 0 \/
  (exists p, m !! Z.to_nat current = Some p /\ burst_left p <= 0) ->
  run_proc procs (Z.of_nat (length m)) current amount m = Done m.
Proof. apply run_proc_guard. Qed.

Lemma run_proc_noop_witness :
  run_proc Procs 3 1 4 [mkpcb 0 5 0; mkpcb 1 0 2; mkpcb 2 8 7]
  = Done [mkpcb 0 5 0; mkpcb 1 0 2; mkpcb 2 8 7].
Proof.
  apply (run_proc_noop [mkpcb 0 5 0; mkpcb 1 0 2; mkpcb 2 8 7] Procs 1 4).
  right. right. right. exists (mkpcb 1 0 2). split; [reflexivity|].
  cbn [burst_left]. lia.
Defined.

(** ** Round-Robin selection *)

(** C5. On a table of at most 2^30 records (so that the index arithmetic of
    the scan stays within [int]) and for an in-range [c], [rr_next] returns
    some [r]; [r] is [-1] exactly when no record has work; otherwise [r] is
    the first index with work met when scanning circularly from
    [(c + 1) mod size], which may be [c] itself; and an index that is
    returned never has [burst_left <= 0]. *)
Theorem rr_next_selects (m : list pcb) (c : nat) :
  (c < length m)%nat -> Z.of_nat (length m) <= 2 ^ 30 ->
  exists r,
    rr_next (Z.of_nat c) Procs (Z.of_nat (length m)) m = Done r /\
    (r = -1 <-> forall k, ~ active m k) /\
    (r <> -1 ->
       exists o, (o < length m)%nat /\
         r = Z.of_nat (Nat.modulo (c + 1 + o) (length m)) /\
         active m (Nat.modulo (c + 1 + o) (length m)) /\
         forall o', (o' < o)%nat ->
                    ~ active m (Nat.modulo (c + 1 + o') (length m))) /\
    (forall p, 0 <= r -> m !! Z.to_nat r = Some p -> 0 < burst_left p).
Proof.
  intros Hc Hlen.
  destruct (rr_next_spec m c Hc Hlen) as [[Hr Hno]|(o & Ho & Hr & Ha & Hfirst)].
  - exists (-1). split; [exact Hr|]. split; [tauto|].
    split; [congruence|]. intros p Hneg. lia.
  - eexists. split; [exact Hr|]. split; [|split].
    + split; [lia|]. intros Hno. exfalso. apply (Hno _ Ha).
    + intros _. exists o. auto.
    + intros p _ Hp. rewrite Nat2Z.id in Hp.
      destruct Ha as (p' & Hp' & Hb). congruence.
Qed.

Lemma rr_next_selects_witness :
  exists r,
    rr_next 2 Procs 3 [mkpcb 0 0 4; mkpcb 1 0 0; mkpcb 2 6 1] = Done r /\
    r <> -1 /\
    (forall p, 0 <= r ->
       [mkpcb 0 0 4; mkpcb 1 0 0; mkpcb 2 6 1] !! Z.to_nat r = Some p ->
       0 < burst_left p).
Proof.
  destruct (rr_next_selects [mkpcb 0 0 4; mkpcb 1 0 0; mkpcb 2 6 1] 2)
    as (r & Hr & _ & _ & Hpos).
  - simpl. lia.
  - simpl. lia.
  - exists r. split; [exact Hr|]. split; [|exact Hpos].
    cbv in Hr. injection Hr as <-. discriminate.
Defined.

(** ** Round-Robin driver: nothing to run *)

Lemma first_with_work_none m :
  Forall (fun p => burst_left p <= 0) m ->
  first_with_work (length m) 0 m = Done (-1).
Proof.
  intros Hfin.
  destruct (first_with_work_spec m (length m) 0)
    as [[Hr _]|(j & _ & _ & (p & Hp & Hb) & _)]; [lia|exact Hr|].
  rewrite Forall_lookup in Hfin. pose proof (Hfin j p Hp) as Hle. simpl in Hle. lia.
Qed.

(** C10. With a non-positive quantum, with a non-positive table length, or
    on a table in which no record has work, [rr_run] returns 0 at once,
    whatever the fuel, and the store is as it was. *)
Theorem rr_run_nothing_to_do (fuel : nat) (procs : pcb_ptr) (plen quantum : Z)
  (m : list pcb) :
  quantum <= 0 \/ plen <= 0 \/
  (plen = Z.of_nat (length m) /\ Forall (fun p => burst_left p <= 0) m) ->
  rr_run fuel procs plen quantum m = Done (0, m).
Proof.
  intros H. unfold rr_run. destruct procs; [reflexivity|].
  destruct (Z.leb_spec plen 0) as [|Hplen]; [reflexivity|].
  destruct (Z.leb_spec quantum 0) as [|Hq]; [reflexivity|]. cbn [orb].
  destruct H as [H|[H|[-> Hfin]]]; [lia|lia|].
  rewrite Nat2Z.id, (first_with_work_none m Hfin). reflexivity.
Qed.

Lemma rr_run_nothing_to_do_witness :
  rr_run 0 Procs 2 0 [mkpcb 0 5 0; mkpcb 1 3 0]
  = Done (0, [mkpcb 0 5 0; mkpcb 1 3 0]) /\
  rr_run 0 Procs 2 4 [mkpcb 0 0 3; mkpcb 1 0 0]
  = Done (0, [mkpcb 0 0 3; mkpcb 1 0 0]).
Proof.
  split.
  - apply (rr_run_nothing_to_do 0 Procs 2 0 [mkpcb 0 5 0; mkpcb 1 3 0]).
    left. lia.
  - apply (rr_run_nothing_to_do 0 Procs 2 4 [mkpcb 0 0 3; mkpcb 1 0 0]).
    right. right. split; [reflexivity|].
    repeat (apply Forall_cons_2; [cbn [burst_left]; lia|]). apply Forall_nil_2.
Defined.

(** ** The drivers on a fresh table *)

Lemma bursts_nonneg bursts (hi : Z) :
  Forall (fun b => 0 <= b <= hi) bursts -> Forall (fun b => 0 <= b) bursts.
Proof. intros H. eapply Forall_impl; [exact H|]. simpl. intros; lia. Qed.

Lemma rr_run_log_fresh bursts q fuel :
  0 < q -> bursts <> [] -> Z.of_nat (length bursts) <= 2 ^ 30 ->
  Forall (fun b => 0 <= b <= CInt.int_max) bursts ->
  total_slices q bursts <= Z.of_nat fuel ->
  exists m' log,
    rr_run_log fuel Procs (Z.of_nat (length bursts)) q (fresh_table bursts)
    = Done (CInt.wrap (sumZ bursts), m', log)
    /\ length m' = length bursts
    /\ Forall (fun p => burst_left p = 0) m'
    /\ Z.of_nat (length log) = total_slices q bursts.
Proof.
  intros Hq Hne Hlen Hfit Hfuel.
  destruct (rr_run_log_spec q (fresh_table bursts) fuel)
    as (m' & log & Hr & Hl & Hfin & Hlog).
  - assumption.
  - apply fresh_table_nonempty, Hne.
  - rewrite length_fresh_table. assumption.
  - apply (fresh_table_bursts_range bursts (fun b => 0 <= b <= CInt.int_max)), Hfit.
  - rewrite bursts_of_fresh_table. assumption.
  - rewrite length_fresh_table, bursts_of_fresh_table in *. eauto 10.
Qed.

Lemma fcfs_state_finished bursts :
  Forall (fun p => burst_left p = 0) (fcfs_state bursts (length bursts)).
Proof.
  apply Forall_lookup. intros k p Hp. unfold fcfs_state in Hp.
  apply list_lookup_imap_Some in Hp as (b & Hb & ->). cbn [burst_left].
  apply lookup_lt_Some in Hb. destruct (decide (k < length bursts)%nat); lia.
Qed.

(** C2. For a non-empty sequence of non-negative [int] bursts, on a table
    of at most 2^30 records and with a positive quantum, [fcfs_run] and
    [rr_run] (given fuel for the quanta of the bursts) both return, with the
    same total: the sum of the bursts as the program's [int] additions
    compute it, which is the sum of the bursts itself whenever that sum fits
    an [int]. *)
Theorem drivers_total_time (bursts : list Z) (ok : bool) (m0 : list pcb)
  (quantum : Z) (fuel : nat) :
  bursts <> [] -> Forall (fun b => 0 <= b <= CInt.int_max) bursts ->
  Z.of_nat (length bursts) <= 2 ^ 30 ->
  0 < quantum ->
  init_procs ok (Some bursts) (Z.of_nat (length bursts)) = Done (Some m0) ->
  total_slices quantum bursts <= Z.of_nat fuel ->
  exists total m1 m2,
    fcfs_run Procs (Z.of_nat (length bursts)) m0 = Done (total, m1) /\
    rr_run fuel Procs (Z.of_nat (length bursts)) quantum m0 = Done (total, m2) /\
    total = CInt.wrap (sumZ bursts) /\
    (sumZ bursts <= CInt.int_max -> total = sumZ bursts).
Proof.
  intros Hne Hfit Hlen Hq Hinit Hfuel.
  apply init_procs_fresh in Hinit as ->.
  pose proof (bursts_nonneg _ _ Hfit) as Hnn.
  destruct (rr_run_log_fresh bursts quantum fuel) as (m2 & log & Hrr & _);
    [assumption..|].
  exists (CInt.wrap (sumZ bursts)), (fcfs_state bursts (length bursts)), m2.
  split; [apply fcfs_run_fresh; assumption|].
  split; [rewrite rr_run_forget, Hrr; reflexivity|].
  split; [reflexivity|]. intros Hsum.
  apply wrap_in_range. pose proof (sumZ_nonneg _ Hnn). int_lia.
Qed.

Lemma drivers_total_time_witness :
  exists m1 m2,
    fcfs_run Procs 3 [mkpcb 0 5 0; mkpcb 1 3 0; mkpcb 2 8 0] = Done (16, m1) /\
    rr_run 5 Procs 3 4 [mkpcb 0 5 0; mkpcb 1 3 0; mkpcb 2 8 0] = Done (16, m2).
Proof.
  destruct (drivers_total_time [5; 3; 8] true
              [mkpcb 0 5 0; mkpcb 1 3 0; mkpcb 2 8 0] 4 5)
    as (total & m1 & m2 & Hf & Hr & _ & Hsum).
  - discriminate.
  - repeat (apply Forall_cons_2; [unfold CInt.int_max; lia|]). apply Forall_nil_2.
  - simpl. lia.
  - lia.
  - reflexivity.
  - vm_compute. discriminate.
  - exists m1, m2. rewrite Hsum in Hf, Hr by (vm_compute; discriminate).
    split; [exact Hf|exact Hr].
Defined.

(** C2, where the total is not the sum.  The bursts [INT_MAX] and 1 are
    non-negative ints.  On the table created from them [fcfs_run], and
    [rr_run] with the quantum [INT_MAX], both return [INT_MIN], which is not
    the sum of the bursts. *)
Lemma drivers_total_wraps :
  init_procs true (Some [2147483647; 1]) 2
  = Done (Some [mkpcb 0 2147483647 0; mkpcb 1 1 0]) /\
  fcfs_run Procs 2 [mkpcb 0 2147483647 0; mkpcb 1 1 0]
  = Done (-2147483648, [mkpcb 0 0 0; mkpcb 1 0 2147483647]) /\
  rr_run 2 Procs 2 2147483647 [mkpcb 0 2147483647 0; mkpcb 1 1 0]
  = Done (-2147483648, [mkpcb 0 0 0; mkpcb 1 0 2147483647]) /\
  -2147483648 <> sumZ [2147483647; 1].
Proof.
  split; [reflexivity|]. split; [vm_compute; reflexivity|].
  split; [vm_compute; reflexivity|]. vm_compute. discriminate.
Qed.

(** Past the range of [int] the additions wrap around, and the total is no
    longer the sum of the bursts. *)
Example fcfs_run_total_wraps :
  fcfs_run Procs 2 [mkpcb 0 2147483647 0; mkpcb 1 1 0]
  = Done (-2147483648, [mkpcb 0 0 0; mkpcb 1 0 2147483647]).
Proof. vm_compute. reflexivity. Qed.

(** C3. For a non-empty sequence of non-negative [int] bursts, on a table of
    at most 2^30 records, both drivers return ([rr_run] for any positive
    quantum, given fuel for its quanta) and leave every record with
    [burst_left = 0], so the remaining bursts sum to 0. *)
Theorem drivers_finish_all (bursts : list Z) (ok : bool) (m0 : list pcb)
  (quantum : Z) (fuel : nat) :
  bursts <> [] -> Forall (fun b => 0 <= b <= CInt.int_max) bursts ->
  Z.of_nat (length bursts) <= 2 ^ 30 ->
  0 < quantum ->
  init_procs ok (Some bursts) (Z.of_nat (length bursts)) = Done (Some m0) ->
  total_slices quantum bursts <= Z.of_nat fuel ->
  (exists total m1,
     fcfs_run Procs (Z.of_nat (length bursts)) m0 = Done (total, m1) /\
     length m1 = length bursts /\
     Forall (fun p => burst_left p = 0) m1 /\ sumZ (bursts_of m1) = 0) /\
  (exists total m2,
     rr_run fuel Procs (Z.of_nat (length bursts)) quantum m0 = Done (total, m2) /\
     length m2 = length bursts /\
     Forall (fun p => burst_left p = 0) m2 /\ sumZ (bursts_of m2) = 0).
Proof.
  intros Hne Hfit Hlen Hq Hinit Hfuel.
  apply init_procs_fresh in Hinit as ->.
  pose proof (bursts_nonneg _ _ Hfit) as Hnn.
  assert (Hsum : forall m, Forall (fun p => burst_left p = 0) m ->
                           sumZ (bursts_of m) = 0).
  { intros m Hm. apply sumZ_zero, Forall_fmap. exact Hm. }
  split.
  - exists (CInt.wrap (sumZ bursts)), (fcfs_state bursts (length bursts)).
    split; [apply fcfs_run_fresh; assumption|].
    split; [apply length_fcfs_state|].
    split; [apply fcfs_state_finished|apply Hsum, fcfs_state_finished].
  - destruct (rr_run_log_fresh bursts quantum fuel)
      as (m2 & log & Hrr & Hl & Hfin & _); [assumption..|].
    exists (CInt.wrap (sumZ bursts)), m2.
    split; [rewrite rr_run_forget, Hrr; reflexivity|]. auto.
Qed.

Lemma drivers_finish_all_witness :
  (exists total m1,
     fcfs_run Procs 3 [mkpcb 0 5 0; mkpcb 1 0 0; mkpcb 2 8 0] = Done (total, m1) /\
     length m1 = 3%nat /\
     Forall (fun p => burst_left p = 0) m1 /\ sumZ (bursts_of m1) = 0) /\
  (exists total m2,
     rr_run 5 Procs 3 3 [mkpcb 0 5 0; mkpcb 1 0 0; mkpcb 2 8 0] = Done (total, m2) /\
     length m2 = 3%nat /\
     Forall (fun p => burst_left p = 0) m2 /\ sumZ (bursts_of m2) = 0).
Proof.
  apply (drivers_finish_all [5; 0; 8] true
           [mkpcb 0 5 0; mkpcb 1 0 0; mkpcb 2 8 0] 3 5).
  - discriminate.
  - repeat (apply Forall_cons_2; [unfold CInt.int_max; lia|]). apply Forall_nil_2.
  - simpl. lia.
  - lia.
  - reflexivity.
  - vm_compute. discriminate.
Defined.

(** C4. For a non-empty sequence of strictly positive bursts, [fcfs_run] on
    the fresh table returns, and the final [wait] of process [i] is the sum
    of the bursts of the processes before it (so 0 for process 0): the sum
    as the program's [int] additions compute it, which is that sum itself
    whenever it fits an [int]. *)
Theorem fcfs_wait_is_prefix_sum (bursts : list Z) (ok : bool) (m0 : list pcb) :
  bursts <> [] -> Forall (fun b => 0 < b) bursts ->
  init_procs ok (Some bursts) (Z.of_nat (length bursts)) = Done (Some m0) ->
  exists total m1,
    fcfs_run Procs (Z.of_nat (length bursts)) m0 = Done (total, m1) /\
    length m1 = length bursts /\
    forall i p, m1 !! i = Some p ->
      wait p = CInt.wrap (sumZ (take i bursts)) /\
      (sumZ (take i bursts) <= CInt.int_max -> wait p = sumZ (take i bursts)).
Proof.
  intros Hne Hpos Hinit. apply init_procs_fresh in Hinit as ->.
  assert (Forall (fun b => 0 <= b) bursts) as Hnn.
  { eapply Forall_impl; [exact Hpos|]. simpl. intros; lia. }
  exists (CInt.wrap (sumZ bursts)), (fcfs_state bursts (length bursts)).
  split; [apply fcfs_run_fresh; assumption|].
  split; [apply length_fcfs_state|]. intros i p Hp.
  unfold fcfs_state in Hp. apply list_lookup_imap_Some in Hp as (b & Hb & ->).
  cbn [wait]. rewrite Forall_lookup in Hpos.
  pose proof (Hpos i b Hb) as Hb0. simpl in Hb0.
  destruct (Z.gtb_spec b 0); [|lia].
  apply lookup_lt_Some in Hb. rewrite Nat.min_l by lia.
  split; [reflexivity|]. intros Hfit.
  apply wrap_in_range. pose proof (sumZ_take_le bursts i Hnn). int_lia.
Qed.

Lemma fcfs_wait_is_prefix_sum_witness :
  exists total m1,
    fcfs_run Procs 3 [mkpcb 0 5 0; mkpcb 1 3 0; mkpcb 2 8 0] = Done (total, m1) /\
    length m1 = 3%nat /\
    forall i p, m1 !! i = Some p ->
      wait p = CInt.wrap (sumZ (take i [5; 3; 8])) /\
      (sumZ (take i [5; 3; 8]) <= CInt.int_max ->
       wait p = sumZ (take i [5; 3; 8])).
Proof.
  apply (fcfs_wait_is_prefix_sum [5; 3; 8] true
           [mkpcb 0 5 0; mkpcb 1 3 0; mkpcb 2 8 0]).
  - discriminate.
  - repeat (apply Forall_cons_2; [lia|]). apply Forall_nil_2.
  - reflexivity.
Defined.

(** C4, where the wait is not the sum of the earlier bursts.  The bursts
    [INT_MAX], [INT_MAX], 1 are strictly positive ints.  After [fcfs_run] on
    the table created from them process 2 has [wait = -2], and the sum of
    the two bursts before it is 4294967294. *)
Lemma fcfs_wait_wraps :
  init_procs true (Some [2147483647; 2147483647; 1]) 3
  = Done (Some [mkpcb 0 2147483647 0; mkpcb 1 2147483647 0; mkpcb 2 1 0]) /\
  fcfs_run Procs 3 [mkpcb 0 2147483647 0; mkpcb 1 2147483647 0; mkpcb 2 1 0]
  = Done (-1, [mkpcb 0 0 0; mkpcb 1 0 2147483647; mkpcb 2 0 (-2)]) /\
  wait (mkpcb 2 0 (-2)) <> sumZ (take 2 [2147483647; 2147483647; 1]).
Proof.
  split; [reflexivity|]. split; [vm_compute; reflexivity|].
  vm_compute. discriminate.
Qed.




(** C7. For a non-empty sequence of bursts that are non-negative and at
    most the quantum, on a table of at most 2^30 records, [rr_run] (within
    one loop iteration per process) and [fcfs_run] started on the same fresh
    table return the same total and leave the same store, hence the same
    final [wait] for every process; and they make the same calls of
    [run_proc]: one for each process with work, in id order, each for the
    whole burst of the process. *)
Theorem rr_big_quantum_is_fcfs (bursts : list Z) (ok : bool) (m0 : list pcb)
  (quantum : Z) (fuel : nat) :
  bursts <> [] -> Forall (fun b => 0 <= b <= quantum) bursts ->
  Z.of_nat (length bursts) <= 2 ^ 30 ->
  init_procs ok (Some bursts) (Z.of_nat (length bursts)) = Done (Some m0) ->
  (length bursts <= fuel)%nat ->
  exists total m1 m2,
    fcfs_run Procs (Z.of_nat (length bursts)) m0 = Done (total, m1) /\
    rr_run fuel Procs (Z.of_nat (length bursts)) quantum m0 = Done (total, m2) /\
    (forall i p1 p2, m1 !! i = Some p1 -> m2 !! i = Some p2 -> wait p1 = wait p2) /\
    m1 = m2 /\
    fcfs_run_log Procs (Z.of_nat (length bursts)) m0
    = Done (total, m1, burst_runs 0 bursts) /\
    rr_run_log fuel Procs (Z.of_nat (length bursts)) quantum m0
    = Done (total, m2, burst_runs 0 bursts).
Proof.
  intros Hne Hbq Hlen Hinit Hfuel. apply init_procs_fresh in Hinit as ->.
  pose proof (bursts_nonneg _ _ Hbq) as Hnn.
  exists (CInt.wrap (sumZ bursts)), (fcfs_state bursts (length bursts)),
         (fcfs_state bursts (length bursts)).
  split; [apply fcfs_run_fresh; assumption|].
  split; [apply rr_run_big_quantum; assumption|].
  split; [intros i p1 p2 H1 H2; congruence|].
  split; [reflexivity|].
  split; [apply fcfs_run_log_fresh; assumption|].
  apply rr_run_log_big_quantum; assumption.
Qed.

Lemma rr_big_quantum_is_fcfs_witness :
  exists total m1 m2,
    fcfs_run Procs 3 [mkpcb 0 5 0; mkpcb 1 0 0; mkpcb 2 8 0] = Done (total, m1) /\
    rr_run 3 Procs 3 8 [mkpcb 0 5 0; mkpcb 1 0 0; mkpcb 2 8 0] = Done (total, m2) /\
    (forall i p1 p2, m1 !! i = Some p1 -> m2 !! i = Some p2 -> wait p1 = wait p2) /\
    m1 = m2 /\
    fcfs_run_log Procs 3 [mkpcb 0 5 0; mkpcb 1 0 0; mkpcb 2 8 0]
    = Done (total, m1, [(0, 5); (2, 8)]) /\
    rr_run_log 3 Procs 3 8 [mkpcb 0 5 0; mkpcb 1 0 0; mkpcb 2 8 0]
    = Done (total, m2, [(0, 5); (2, 8)]).
Proof.
  apply (rr_big_quantum_is_fcfs [5; 0; 8] true
           [mkpcb 0 5 0; mkpcb 1 0 0; mkpcb 2 8 0] 8 3).
  - discriminate.
  - repeat (apply Forall_cons_2; [lia|]). apply Forall_nil_2.
  - simpl. lia.
  - reflexivity.
  - simpl. lia.
Defined.

(** C9, the bound as the design document states it, fails: with bursts
    5, 3, 8 and quantum 4 the Round-Robin driver calls [run_proc] 5 times
    (P0 for 4, P1 for 3, P2 for 4, P0 for 1, P2 for 4), more than the
    ceiling of 16 / 4. *)
Lemma rr_run_calls_exceed_ceiling :
  init_procs true (Some [5; 3; 8]) 3
  = Done (Some [mkpcb 0 5 0; mkpcb 1 3 0; mkpcb 2 8 0]) /\
  rr_run_log 5 Procs 3 4 [mkpcb 0 5 0; mkpcb 1 3 0; mkpcb 2 8 0]
  = Done (16, [mkpcb 0 0 7; mkpcb 1 0 4; mkpcb 2 0 8],
          [(0, 4); (1, 3); (2, 4); (0, 1); (2, 4)]) /\
  ~ Z.of_nat (length [(0, 4); (1, 3); (2, 4); (0, 1); (2, 4)])
    <= slices 4 (sumZ [5; 3; 8]).
Proof.
  split; [reflexivity|]. split; [reflexivity|].
  vm_compute. intros H. apply H. reflexivity.
Qed.

(** C9, amended. For a non-empty sequence of non-negative [int] bursts, on a
    table of at most 2^30 records, both drivers return: [fcfs_run] after at
    most [plen] calls of [run_proc], and [rr_run], for any positive quantum
    and given fuel for that many iterations, after exactly as many calls as
    the bursts take quanta: the sum over the processes of the ceiling of
    [burst / quantum], which is at most the sum of the bursts. *)
Theorem drivers_step_bounds (bursts : list Z) (ok : bool) (m0 : list pcb)
  (quantum : Z) (fuel : nat) :
  bursts <> [] -> Forall (fun b => 0 <= b <= CInt.int_max) bursts ->
  Z.of_nat (length bursts) <= 2 ^ 30 ->
  0 < quantum ->
  init_procs ok (Some bursts) (Z.of_nat (length bursts)) = Done (Some m0) ->
  total_slices quantum bursts <= Z.of_nat fuel ->
  (exists total m1 log,
     fcfs_run_log Procs (Z.of_nat (length bursts)) m0 = Done (total, m1, log) /\
     fcfs_run Procs (Z.of_nat (length bursts)) m0 = Done (total, m1) /\
     (length log <= length bursts)%nat) /\
  (exists total m2 log,
     rr_run_log fuel Procs (Z.of_nat (length bursts)) quantum m0
     = Done (total, m2, log) /\
     rr_run fuel Procs (Z.of_nat (length bursts)) quantum m0 = Done (total, m2) /\
     Z.of_nat (length log) = total_slices quantum bursts /\
     Z.of_nat (length log) <= sumZ bursts).
Proof.
  intros Hne Hfit Hlen Hq Hinit Hfuel.
  apply init_procs_fresh in Hinit as ->.
  pose proof (bursts_nonneg _ _ Hfit) as Hnn.
  split.
  - eexists _, _, _. split; [apply fcfs_run_log_fresh; assumption|].
    split; [apply fcfs_run_fresh; assumption|apply length_burst_runs].
  - destruct (rr_run_log_fresh bursts quantum fuel)
      as (m2 & log & Hrr & _ & _ & Hlog); [assumption..|].
    exists (CInt.wrap (sumZ bursts)), m2, log. split; [exact Hrr|].
    split; [rewrite rr_run_forget, Hrr; reflexivity|].
    split; [exact Hlog|]. rewrite Hlog. apply total_slices_le; assumption.
Qed.

Lemma drivers_step_bounds_witness :
  (exists total m1 log,
     fcfs_run_log Procs 3 [mkpcb 0 5 0; mkpcb 1 3 0; mkpcb 2 8 0]
     = Done (total, m1, log) /\
     fcfs_run Procs 3 [mkpcb 0 5 0; mkpcb 1 3 0; mkpcb 2 8 0] = Done (total, m1) /\
     (length log <= 3)%nat) /\
  (exists total m2 log,
     rr_run_log 5 Procs 3 4 [mkpcb 0 5 0; mkpcb 1 3 0; mkpcb 2 8 0]
     = Done (total, m2, log) /\
     rr_run 5 Procs 3 4 [mkpcb 0 5 0; mkpcb 1 3 0; mkpcb 2 8 0] = Done (total, m2) /\
     Z.of_nat (length log) = total_slices 4 [5; 3; 8] /\
     Z.of_nat (length log) <= sumZ [5; 3; 8]).
Proof.
  apply (drivers_step_bounds [5; 3; 8] true
           [mkpcb 0 5 0; mkpcb 1 3 0; mkpcb 2 8 0] 4 5).
  - discriminate.
  - repeat (apply Forall_cons_2; [unfold CInt.int_max; lia|]). apply Forall_nil_2.
  - simpl. lia.
  - lia.
  - reflexivity.
  - vm_compute. discriminate.
Defined.

(** * Further properties of the code *)

(** ** [init_procs] *)

Lemma init_procs_loop_prefix rest extra : forall pre procs,
  init_procs_loop (length rest) (Z.of_nat (length pre)) (pre ++ rest ++ extra) procs
  = Done (procs ++ imap (fun k b => {| pid := Z.of_nat (length pre + k);
                                       burst_left := b; wait := 0 |}) rest).
Proof.
  induction rest as [|b rest IH]; intros pre procs.
  - simpl. rewrite app_nil_r. reflexivity.
  - simpl length. cbn [init_procs_loop app]. rewrite load_middle.
    cbn [mbind outcome_bind].
    rewrite (cons_middle b pre), app_assoc.
    replace (Z.of_nat (length pre) + 1) with (Z.of_nat (length (pre ++ [b])))
      by (rewrite length_app; simpl; lia).
    rewrite IH, <- app_assoc. simpl. rewrite Nat.add_0_r. do 3 f_equal.
    apply imap_ext. intros k x _. simpl. rewrite length_app. simpl.
    do 2 f_equal. lia.
Qed.

(** X1. [init_procs] returns [NULL] when there is no burst array, when
    [blen <= 0] or when [malloc] fails.  Otherwise, the burst array holding
    at least [blen] bursts, it returns a table of exactly [blen] records,
    the record at index [i] having [pid = i], [burst_left = bursts\[i\]]
    and [wait = 0]; bursts past [blen] are not read. *)
Theorem init_procs_table (ok : bool) (bs : list Z) (blen : Z) :
  blen <= Z.of_nat (length bs) ->
  init_procs ok None blen = Done None /\
  (blen <= 0 \/ ok = false -> init_procs ok (Some bs) blen = Done None) /\
  (0 < blen -> ok = true ->
   exists m,
     init_procs ok (Some bs) blen = Done (Some m) /\
     Z.of_nat (length m) = blen /\
     forall i b, Z.of_nat i < blen -> bs !! i = Some b ->
       m !! i = Some {| pid := Z.of_nat i; burst_left := b; wait := 0 |}).
Proof.
  intros Hlen. split; [reflexivity|]. split.
  - intros [H| ->]; unfold init_procs.
    + destruct (Z.leb_spec blen 0); [reflexivity|lia].
    + destruct (blen <=? 0); reflexivity.
  - intros Hpos ->. unfold init_procs.
    destruct (Z.leb_spec blen 0); [lia|]. cbn [negb].
    pose proof (init_procs_loop_prefix (take (Z.to_nat blen) bs)
                  (drop (Z.to_nat blen) bs) [] []) as Hloop.
    rewrite length_take, Nat.min_l in Hloop by lia.
    cbn [app length] in Hloop. change (Z.of_nat 0) with 0 in Hloop.
    rewrite take_drop in Hloop. rewrite Hloop. cbn [mbind outcome_bind app].
    eexists. split; [reflexivity|].
    split; [rewrite length_imap, length_take; lia|].
    intros i b Hi Hb. rewrite list_lookup_imap, lookup_take_lt by lia.
    rewrite Hb. reflexivity.
Qed.

Lemma init_procs_table_witness :
  init_procs true (Some [5; 3; 8]) 0 = Done None /\
  exists m,
    init_procs true (Some [5; 3; 8]) 2 = Done (Some m) /\
    Z.of_nat (length m) = 2 /\
    m !! 1%nat = Some (mkpcb 1 3 0).
Proof.
  destruct (init_procs_table true [5; 3; 8] 0) as (_ & Hnull & _); [simpl; lia|].
  destruct (init_procs_table true [5; 3; 8] 2) as (_ & _ & Hsome); [simpl; lia|].
  split; [apply Hnull; left; lia|].
  destruct Hsome as (m & Hm & Hl & Hrec); [lia|reflexivity|].
  exists m. split; [exact Hm|]. split; [exact Hl|].
  apply (Hrec 1%nat 3); [lia|reflexivity].
Defined.

(** ** [run_proc]: slices add up *)

Lemma wrap_sub_wrap_l a b : CInt.wrap (CInt.wrap a - b) = CInt.wrap (a - b).
Proof.
  replace (CInt.wrap a - b) with (CInt.wrap a + - b) by lia.
  rewrite wrap_add_wrap_l. f_equal; lia.
Qed.

Lemma advance_advance m c p a b :
  m !! c = Some p ->
  advance (advance m c a) c b = advance m c (a + b).
Proof.
  intros Hc. apply list_eq. intros k.
  destruct (m !! k) as [q|] eqn:Hq.
  2:{ unfold advance. rewrite !list_lookup_imap, Hq. reflexivity. }
  destruct (decide (k = c)) as [->|Hne].
  - simplify_eq.
    rewrite (lookup_advance_eq _ _ _ _ (lookup_advance_eq _ _ a _ Hc)).
    rewrite (lookup_advance_eq _ _ _ _ Hc).
    unfold set_burst_left. cbn [pid burst_left wait]. do 2 f_equal.
    unfold CInt.sub. rewrite wrap_sub_wrap_l. f_equal. lia.
  - rewrite (lookup_advance_ne _ _ (a + b) _ _ Hne Hq).
    rewrite (lookup_advance_ne _ _ b _ _ Hne (lookup_advance_ne _ _ a _ _ Hne Hq)).
    destruct (burst_left q >? 0) eqn:Hb.
    + unfold set_wait. cbn [pid burst_left wait]. rewrite Hb. do 2 f_equal.
      unfold CInt.add. rewrite wrap_add_wrap_l. f_equal. lia.
    + rewrite Hb. reflexivity.
Qed.

(** X2. Two consecutive calls of [run_proc] for the same process, for [a]
    and then for [b] time units that together do not exceed its burst, leave
    the table exactly as one call for [a + b] does. *)
Theorem run_proc_slices_add (m : list pcb) (c : nat) (p : pcb) (a b : Z) :
  m !! c = Some p -> burst_left p <= CInt.int_max ->
  0 < a -> 0 < b -> a + b <= burst_left p ->
  exists m1,
    run_proc Procs (Z.of_nat (length m)) (Z.of_nat c) a m = Done m1 /\
    run_proc Procs (Z.of_nat (length m)) (Z.of_nat c) b m1
    = run_proc Procs (Z.of_nat (length m)) (Z.of_nat c) (a + b) m.
Proof.
  intros Hc Hmax Ha Hb Hab. exists (advance m c a).
  split; [apply (run_proc_run m _ c p); [reflexivity|assumption|lia|lia]|].
  rewrite (run_proc_run m _ c p (a + b)) by (reflexivity || assumption || lia).
  rewrite <- (advance_advance m c p a b Hc).
  apply (run_proc_run _ _ c (set_burst_left p (CInt.sub (burst_left p) a))).
  - rewrite length_advance. reflexivity.
  - apply lookup_advance_eq, Hc.
  - cbn [burst_left set_burst_left]. rewrite sub_in_range by int_lia. lia.
  - cbn [burst_left set_burst_left]. rewrite sub_in_range by int_lia. lia.
Qed.

Lemma run_proc_slices_add_witness :
  exists m1,
    run_proc Procs 2 0 2 [mkpcb 0 5 0; mkpcb 1 3 1] = Done m1 /\
    run_proc Procs 2 0 3 m1 = run_proc Procs 2 0 5 [mkpcb 0 5 0; mkpcb 1 3 1].
Proof.
  apply (run_proc_slices_add [mkpcb 0 5 0; mkpcb 1 3 1] 0 (mkpcb 0 5 0) 2 3).
  - reflexivity.
  - cbn [burst_left]. unfold CInt.int_max. lia.
  - lia.
  - lia.
  - cbn [burst_left]. lia.
Defined.

(** ** The drivers on any table *)

Lemma run_proc_call_advance m c p rt :
  m !! c = Some p -> 0 < rt <= burst_left p -> run_proc_call m (advance m c rt).
Proof.
  intros Hc Hrt. exists Procs, (Z.of_nat c), rt.
  apply (run_proc_run m _ c p); [reflexivity|assumption|lia|assumption].
Qed.

Lemma lookup_bursts_of m k p :
  m !! k = Some p -> bursts_of m !! k = Some (burst_left p).
Proof. intros H. unfold bursts_of. rewrite list_lookup_fmap, H. reflexivity. Qed.

Lemma lookup_work_of m k p :
  m !! k = Some p -> work_of m !! k = Some (Z.max 0 (burst_left p)).
Proof.
  intros H. unfold work_of. rewrite list_lookup_fmap, (lookup_bursts_of _ _ _ H).
  reflexivity.
Qed.

Lemma work_of_nonneg m : Forall (fun b => 0 <= b) (work_of m).
Proof.
  unfold work_of. apply Forall_fmap, Forall_forall. intros b _. simpl. lia.
Qed.

Lemma work_of_advance m c p rt :
  m !! c = Some p ->
  work_of (advance m c rt)
  = <[c := Z.max 0 (CInt.sub (burst_left p) rt)]> (work_of m).
Proof.
  intros Hc. unfold work_of.
  rewrite (bursts_of_advance _ _ _ _ Hc), list_fmap_insert. reflexivity.
Qed.

Lemma fcfs_loop_any : forall n i t m,
  (i + n = length m)%nat -> CInt.in_range t ->
  exists m',
    fcfs_loop n (Z.of_nat i) (Z.of_nat (length m)) t m
    = Done (CInt.wrap (t + sumZ (drop i (work_of m))), m') /\
    rtc run_proc_call m m' /\
    bursts_of m' = take i (bursts_of m) ++ (Z.min 0 <$> drop i (bursts_of m)).
Proof.
  induction n as [|n IH]; intros i t m Hin Ht.
  - exists m. unfold work_of, bursts_of.
    rewrite !drop_ge, take_ge, app_nil_r by (rewrite ?length_fmap; lia).
    cbn [fcfs_loop sumZ foldr]. rewrite Z.add_0_r, wrap_in_range by assumption.
    split; [reflexivity|]. split; [apply rtc_refl|reflexivity].
  - destruct (lookup_lt_is_Some_2 m i) as [p Hp]; [lia|].
    pose proof (lookup_bursts_of _ _ _ Hp) as Hb.
    pose proof (lookup_work_of _ _ _ Hp) as Hw.
    cbn [fcfs_loop]. rewrite (load_lookup _ _ _ Hp). cbn [mbind outcome_bind].
    replace (Z.of_nat i + 1) with (Z.of_nat (S i)) by lia.
    rewrite (drop_S _ _ _ Hw), (drop_S _ _ _ Hb), sumZ_cons, fmap_cons.
    destruct (Z.leb_spec (burst_left p) 0) as [Hle|Hpos].
    + destruct (IH (S i) t m) as (m' & -> & Hcalls & Hbs); [lia|assumption|].
      exists m'. rewrite Z.max_l, Z.min_r by lia.
      split; [reflexivity|]. split; [assumption|].
      rewrite Hbs, (take_S_r _ _ _ Hb), <- app_assoc. reflexivity.
    + rewrite (run_proc_run m _ i p) by (reflexivity || assumption || lia).
      cbn [mbind outcome_bind].
      pose proof (length_advance m i (burst_left p)) as Hl.
      destruct (IH (S i) (CInt.add t (burst_left p)) (advance m i (burst_left p)))
        as (m' & Hrun & Hcalls & Hbs); [lia|apply wrap_range|].
      rewrite Hl in Hrun. rewrite Hrun. exists m'.
      rewrite (work_of_advance _ _ _ _ Hp), drop_insert_lt by lia.
      rewrite (bursts_of_advance _ _ _ _ Hp), sub_diag in Hbs.
      rewrite drop_insert_lt in Hbs by lia.
      split; [|split].
      * f_equal. f_equal. unfold CInt.add. rewrite wrap_add_wrap_l.
        f_equal. lia.
      * eapply rtc_l; [|exact Hcalls].
        apply (run_proc_call_advance m i p); [assumption|lia].
      * rewrite Hbs. erewrite take_S_r.
        2:{ apply list_lookup_insert_eq. unfold bursts_of.
            rewrite length_fmap. lia. }
        rewrite take_insert_ge by lia. rewrite <- app_assoc.
        rewrite Z.min_l by lia. reflexivity.
Qed.

Lemma fcfs_run_any m :
  exists m',
    fcfs_run Procs (Z.of_nat (length m)) m
    = Done (CInt.wrap (sumZ (work_of m)), m') /\
    rtc run_proc_call m m' /\
    bursts_of m' = Z.min 0 <$> bursts_of m.
Proof.
  unfold fcfs_run. destruct (Z.leb_spec (Z.of_nat (length m)) 0) as [H|H].
  - destruct m; [|simpl in H; lia]. exists []. split; [reflexivity|].
    split; [apply rtc_refl|reflexivity].
  - rewrite Nat2Z.id.
    destruct (fcfs_loop_any (length m) 0 0 m) as (m' & Hrun & Hcalls & Hbs);
      [lia|int_lia|].
    change (Z.of_nat 0) with 0 in Hrun. rewrite drop_0 in Hrun, Hbs.
    exists m'. split; [exact Hrun|]. split; assumption.
Qed.

Lemma run_time_of_app k log1 log2 :
  run_time_of k (log1 ++ log2) = run_time_of k log1 + run_time_of k log2.
Proof.
  induction log1 as [|[i rt] log1 IH]; [reflexivity|].
  cbn [app run_time_of]. rewrite IH. lia.
Qed.

Lemma not_active_idle m :
  (forall k, ~ active m k) -> Forall (fun p => burst_left p <= 0) m.
Proof.
  intros Hno. apply Forall_lookup. intros k p Hp. simpl.
  destruct (Z.le_gt_cases (burst_left p) 0) as [|Hpos]; [assumption|].
  exfalso. apply (Hno k). exists p. split; [assumption|lia].
Qed.

Lemma idle_work_zero m :
  Forall (fun p => burst_left p <= 0) m -> Forall (fun b => b = 0) (work_of m).
Proof.
  intros H. unfold work_of, bursts_of. rewrite <- list_fmap_compose.
  apply Forall_fmap. eapply Forall_impl; [exact H|]. simpl. intros; lia.
Qed.

Lemma idle_bursts_min m :
  Forall (fun p => burst_left p <= 0) m -> bursts_of m = Z.min 0 <$> bursts_of m.
Proof.
  intros H. unfold bursts_of. rewrite <- list_fmap_compose.
  apply list_eq. intros k. rewrite !list_lookup_fmap.
  destruct (m !! k) as [p|] eqn:Hp; [|reflexivity]. simpl.
  rewrite Forall_lookup in H. pose proof (H k p Hp) as Hle. simpl in Hle.
  f_equal. lia.
Qed.

Lemma rr_loop_log_any q : 0 < q ->
  forall fuel m c t log,
  Z.of_nat (length m) <= 2 ^ 30 ->
  Forall (fun p => burst_left p <= CInt.int_max) m ->
  active m c ->
  total_slices q (work_of m) <= Z.of_nat fuel ->
  Forall (fun e : Z * Z => 0 < e.2 <= q) log ->
  exists m' log',
    rr_loop_log fuel (Z.of_nat (length m)) q (Z.of_nat c) t log m
    = Done (CInt.wrap (t + sumZ (work_of m)), m', log')
    /\ rtc run_proc_call m m'
    /\ bursts_of m' = Z.min 0 <$> bursts_of m
    /\ Z.of_nat (length log') = Z.of_nat (length log) + total_slices q (work_of m)
    /\ Forall (fun e : Z * Z => 0 < e.2 <= q) log'
    /\ forall k p, m !! k = Some p ->
         run_time_of (Z.of_nat k) log'
         = run_time_of (Z.of_nat k) log + Z.max 0 (burst_left p).
Proof.
  intros Hq. induction fuel as [|fuel IH];
    intros m c t log Hlen Hmax (p & Hp & Hb) Hfuel Hlog.
  all: pose proof (lookup_bursts_of _ _ _ Hp) as Hbc.
  all: pose proof (lookup_work_of _ _ _ Hp) as Hwc.
  all: rewrite Z.max_r in Hwc by lia.
  all: pose proof (work_of_nonneg m) as Hnn.
  all: assert (slices q (burst_left p) <= total_slices q (work_of m)) as Hsl
         by (apply (sumZ_lookup_le _ c);
             [apply total_slices_nonneg; assumption
             |rewrite list_lookup_fmap, Hwc; reflexivity]).
  all: pose proof (slices_pos q _ Hq Hb) as Hs1.
  { lia. }
  cbn [rr_loop_log]. rewrite (load_lookup _ _ _ Hp). cbn [mbind outcome_bind].
  destruct (Z.gtb_spec (burst_left p) 0) as [_|]; [|lia].
  rewrite quantum_min.
  set (rt := Z.min (burst_left p) q).
  assert (burst_left p <= CInt.int_max) as Hpr.
  { rewrite Forall_lookup in Hmax. apply (Hmax c p Hp). }
  rewrite (run_proc_run m _ c p rt) by (reflexivity || assumption || lia).
  cbn [mbind outcome_bind].
  set (m1 := advance m c rt).
  assert (length m1 = length m) as Hlen1 by apply length_advance.
  assert (CInt.sub (burst_left p) rt = burst_left p - rt) as Hsub
    by (apply sub_in_range; int_lia).
  assert (bursts_of m1 = <[c := burst_left p - rt]> (bursts_of m)) as Hb1.
  { subst m1. rewrite (bursts_of_advance _ _ _ _ Hp), Hsub. reflexivity. }
  assert (work_of m1 = <[c := burst_left p - rt]> (work_of m)) as Hw1.
  { subst m1. rewrite (work_of_advance _ _ _ _ Hp), Hsub, Z.max_r by lia.
    reflexivity. }
  assert (sumZ (work_of m1) = sumZ (work_of m) - rt) as Hsum1.
  { rewrite Hw1, (sumZ_insert _ _ _ _ Hwc). lia. }
  assert (total_slices q (work_of m1) = total_slices q (work_of m) - 1) as Hts1.
  { unfold total_slices. rewrite Hw1, list_fmap_insert.
    erewrite sumZ_insert by (rewrite list_lookup_fmap, Hwc; reflexivity).
    subst rt. rewrite slices_step by lia. lia. }
  assert (Forall (fun p => burst_left p <= CInt.int_max) m1) as Hmax1.
  { apply Forall_lookup. intros k q' Hq'.
    destruct (lookup_advance_inv _ _ _ _ _ Hq') as (q0 & Hq0 & _ & Hbq & _).
    rewrite Forall_lookup in Hmax. pose proof (Hmax k q0 Hq0) as Hr. simpl in Hr.
    simpl. rewrite Hbq. destruct (decide (k = c)) as [->|]; [|lia].
    simplify_eq. rewrite Hsub. lia. }
  assert (run_proc_call m m1) as Hcall
    by (apply (run_proc_call_advance m c p); [assumption|lia]).
  assert (Forall (fun e : Z * Z => 0 < e.2 <= q) (log ++ [(Z.of_nat c, rt)]))
    as Hlog1.
  { apply Forall_app. split; [assumption|].
    apply Forall_cons_2; [simpl; lia|apply Forall_nil_2]. }
  assert (Hrun1 : forall k p0, m !! k = Some p0 ->
            exists p1, m1 !! k = Some p1 /\
              run_time_of (Z.of_nat k) (log ++ [(Z.of_nat c, rt)])
              + Z.max 0 (burst_left p1)
              = run_time_of (Z.of_nat k) log + Z.max 0 (burst_left p0)).
  { intros k p0 Hp0. rewrite run_time_of_app. cbn [run_time_of].
    destruct (decide (k = c)) as [->|Hne].
    - simplify_eq. eexists. split; [apply lookup_advance_eq, Hp|].
      cbn [burst_left set_burst_left]. rewrite Hsub, Z.eqb_refl. lia.
    - eexists. split; [apply (lookup_advance_ne _ _ _ _ _ Hne Hp0)|].
      destruct (Z.eqb_spec (Z.of_nat c) (Z.of_nat k)); [lia|].
      destruct (burst_left p0 >? 0); cbn [burst_left set_wait]; lia. }
  rewrite <- Hlen1.
  destruct (rr_next_spec m1 c) as [[-> Hno]|(o & Ho & -> & Ha & _)];
    [apply lookup_lt_Some in Hp; lia|lia| |]; cbn [mbind outcome_bind].
  - change (-1 =? -1) with true. cbv iota.
    exists m1, (log ++ [(Z.of_nat c, rt)]).
    pose proof (not_active_idle m1 Hno) as Hidle.
    pose proof (sumZ_zero _ (idle_work_zero m1 Hidle)) as Hz.
    pose proof (total_slices_zero q _ Hq (idle_work_zero m1 Hidle)) as Hz'.
    split; [|split; [|split; [|split; [|split]]]].
    + do 3 f_equal. unfold CInt.add. f_equal. lia.
    + apply rtc_once, Hcall.
    + rewrite (idle_bursts_min m1 Hidle), Hb1, list_fmap_insert.
      apply list_insert_id. rewrite list_lookup_fmap, Hbc. simpl.
      f_equal. assert (burst_left p - rt = 0) as Hfin; [|lia].
      rewrite Forall_lookup in Hidle.
      pose proof (Hidle c _ (lookup_advance_eq m c rt p Hp)) as Hle.
      cbn [burst_left set_burst_left] in Hle. lia.
    + rewrite length_app. simpl. lia.
    + assumption.
    + intros k p0 Hp0. destruct (Hrun1 k p0 Hp0) as (p1 & Hp1 & Heq).
      rewrite Forall_lookup in Hidle. pose proof (Hidle k p1 Hp1) as Hle.
      simpl in Hle. lia.
  - set (j := Nat.modulo (c + 1 + o) (length m1)) in *.
    destruct (Z.eqb_spec (Z.of_nat j) (-1)); [lia|].
    destruct (IH m1 j (CInt.add t rt) (log ++ [(Z.of_nat c, rt)]))
      as (m' & log' & -> & Hcalls & Hbs & Hlen' & Hlog' & Hruns);
      [lia|assumption|assumption|lia|assumption|].
    exists m', log'. split; [|split; [|split; [|split; [|split]]]].
    + do 3 f_equal. unfold CInt.add. rewrite wrap_add_wrap_l. f_equal. lia.
    + eapply rtc_l; eassumption.
    + rewrite Hbs, Hb1, list_fmap_insert.
      apply list_insert_id. rewrite list_lookup_fmap, Hbc. simpl.
      f_equal. lia.
    + rewrite Hlen', length_app. simpl. lia.
    + assumption.
    + intros k p0 Hp0. destruct (Hrun1 k p0 Hp0) as (p1 & Hp1 & Heq).
      rewrite (Hruns k p1 Hp1). lia.
Qed.

Lemma rr_run_log_any q m fuel :
  0 < q -> Z.of_nat (length m) <= 2 ^ 30 ->
  Forall (fun p => burst_left p <= CInt.int_max) m ->
  total_slices q (work_of m) <= Z.of_nat fuel ->
  exists m' log,
    rr_run_log fuel Procs (Z.of_nat (length m)) q m
    = Done (CInt.wrap (sumZ (work_of m)), m', log)
    /\ rtc run_proc_call m m'
    /\ bursts_of m' = Z.min 0 <$> bursts_of m
    /\ Z.of_nat (length log) = total_slices q (work_of m)
    /\ Forall (fun e : Z * Z => 0 < e.2 <= q) log
    /\ forall k p, m !! k = Some p ->
         run_time_of (Z.of_nat k) log = Z.max 0 (burst_left p).
Proof.
  intros Hq Hlen Hmax Hfuel.
  assert (Hidle : (forall k, ~ active m k) ->
            exists m' log,
              Done (0, m, @nil (Z * Z))
              = Done (CInt.wrap (sumZ (work_of m)), m', log)
              /\ rtc run_proc_call m m'
              /\ bursts_of m' = Z.min 0 <$> bursts_of m
              /\ Z.of_nat (length log) = total_slices q (work_of m)
              /\ Forall (fun e : Z * Z => 0 < e.2 <= q) log
              /\ forall k p, m !! k = Some p ->
                   run_time_of (Z.of_nat k) log = Z.max 0 (burst_left p)).
  { intros Hno. exists m, []. pose proof (not_active_idle m Hno) as Hi.
    rewrite (sumZ_zero _ (idle_work_zero m Hi)).
    rewrite (total_slices_zero q _ Hq (idle_work_zero m Hi)).
    split; [reflexivity|]. split; [apply rtc_refl|].
    split; [apply idle_bursts_min, Hi|]. split; [reflexivity|].
    split; [apply Forall_nil_2|]. intros k p Hp.
    rewrite Forall_lookup in Hi. pose proof (Hi k p Hp) as Hle. simpl in Hle.
    cbn [run_time_of]. lia. }
  unfold rr_run_log.
  destruct (Z.leb_spec (Z.of_nat (length m)) 0) as [H|_].
  { apply Hidle. intros k Ha. apply active_lt in Ha. lia. }
  destruct (Z.leb_spec q 0); [lia|]. cbn [orb]. rewrite Nat2Z.id.
  destruct (first_with_work_spec m (length m) 0)
    as [[Hr Hno]|(j & _ & Hr & Ha & _)]; [lia| |];
    change (Z.of_nat 0) with 0 in Hr; rewrite Hr; cbn [mbind outcome_bind].
  - change (-1 =? -1) with true. cbv iota. apply Hidle.
    intros k. apply Hno. lia.
  - destruct (Z.eqb_spec (Z.of_nat j) (-1)); [lia|].
    destruct (rr_loop_log_any q Hq fuel m j 0 [] Hlen Hmax Ha Hfuel)
      as (m' & log & -> & Hcalls & Hbs & Hl & Hlog & Hruns);
      [apply Forall_nil_2|].
    exists m', log. split; [reflexivity|]. split; [assumption|].
    split; [assumption|]. split; [simpl in Hl; lia|]. split; [assumption|].
    intros k p Hp. rewrite (Hruns k p Hp). cbn [run_time_of]. lia.
Qed.

(** ** Records without work *)

Lemma idle_kept_refl m : True -> Forall2 idle_kept m m.
Proof.
  intros _. apply Forall_Forall2_diag, Forall_forall. intros p _.
  split; reflexivity.
Qed.

Lemma idle_kept_trans p1 p2 p3 :
  idle_kept p1 p2 -> idle_kept p2 p3 -> idle_kept p1 p3.
Proof.
  intros [Hpid Hz] [Hpid' Hz']. split; [congruence|].
  intros H0. specialize (Hz H0). subst p2. apply Hz'. assumption.
Qed.

Lemma advance_idle_kept m c p rt :
  True -> m !! c = Some p -> 0 < rt <= burst_left p ->
  True /\ Forall2 idle_kept m (advance m c rt).
Proof.
  intros _ Hc Hrt. split; [exact I|].
  apply Forall2_same_length_lookup_2; [symmetry; apply length_advance|].
  intros k q q' Hq Hq'. unfold idle_kept.
  destruct (decide (k = c)) as [->|Hne].
  - rewrite (lookup_advance_eq _ _ _ _ Hc) in Hq'. simplify_eq.
    split; [reflexivity|]. intros H0. lia.
  - rewrite (lookup_advance_ne _ _ _ _ _ Hne Hq) in Hq'. simplify_eq.
    destruct (Z.gtb_spec (burst_left q) 0) as [Hpos|Hz].
    + split; [reflexivity|]. intros H0. lia.
    + split; reflexivity.
Qed.

Lemma run_proc_calls_idle_kept m m' :
  rtc run_proc_call m m' -> Forall2 idle_kept m m'.
Proof.
  intros Hcalls.
  apply (run_proc_calls_preserve (fun _ => True) idle_kept
           idle_kept_refl idle_kept_trans advance_idle_kept m m' I Hcalls).
Qed.

(** X3. On any table, whatever its fields hold, any number of [run_proc]
    calls with any arguments leaves the number of records and every [pid] as
    they were, and leaves every record whose [burst_left] is zero or
    negative completely unchanged. *)
Theorem run_proc_calls_keep_idle (m m' : list pcb) :
  rtc run_proc_call m m' ->
  length m' = length m /\
  forall k p, m !! k = Some p ->
    exists p', m' !! k = Some p' /\ pid p' = pid p /\
               (burst_left p <= 0 -> p' = p).
Proof.
  intros Hcalls. pose proof (run_proc_calls_idle_kept m m' Hcalls) as Hkept.
  split; [symmetry; eapply Forall2_length, Hkept|].
  intros k p Hp.
  destruct (Forall2_lookup_l _ _ _ _ _ Hkept Hp) as (p' & Hp' & Hpid & Hz).
  exists p'. auto.
Qed.

Lemma run_proc_calls_keep_idle_witness :
  length [mkpcb 7 0 1; mkpcb 9 (-5) 1; mkpcb 4 0 1]
  = length [mkpcb 7 2 0; mkpcb 9 (-5) 1; mkpcb 4 1 1] /\
  forall k p, [mkpcb 7 2 0; mkpcb 9 (-5) 1; mkpcb 4 1 1] !! k = Some p ->
    exists p', [mkpcb 7 0 1; mkpcb 9 (-5) 1; mkpcb 4 0 1] !! k = Some p' /\
               pid p' = pid p /\ (burst_left p <= 0 -> p' = p).
Proof.
  apply (run_proc_calls_keep_idle
           [mkpcb 7 2 0; mkpcb 9 (-5) 1; mkpcb 4 1 1]
           [mkpcb 7 0 1; mkpcb 9 (-5) 1; mkpcb 4 0 1]).
  eapply rtc_l; [exists Procs, 2, 1; reflexivity|].
  eapply rtc_l; [exists Procs, 0, 9; reflexivity|].
  apply rtc_refl.
Defined.

Lemma lookup_min_bursts m m' k p :
  bursts_of m' = Z.min 0 <$> bursts_of m -> length m' = length m ->
  m !! k = Some p ->
  exists p', m' !! k = Some p' /\ burst_left p' = Z.min 0 (burst_left p).
Proof.
  intros Hbs Hl Hp.
  destruct (lookup_lt_is_Some_2 m' k) as [p' Hp'].
  { rewrite Hl. eapply lookup_lt_Some, Hp. }
  exists p'. split; [assumption|].
  pose proof (lookup_bursts_of _ _ _ Hp') as Hb'.
  rewrite Hbs, list_lookup_fmap, (lookup_bursts_of _ _ _ Hp) in Hb'.
  simpl in Hb'. congruence.
Qed.

Lemma final_records m m' :
  rtc run_proc_call m m' -> bursts_of m' = Z.min 0 <$> bursts_of m ->
  length m' = length m /\
  forall k p, m !! k = Some p ->
    exists p', m' !! k = Some p' /\ pid p' = pid p /\
      burst_left p' = Z.min 0 (burst_left p) /\ (burst_left p <= 0 -> p' = p).
Proof.
  intros Hcalls Hbs. pose proof (run_proc_calls_idle_kept m m' Hcalls) as Hkept.
  assert (length m' = length m) as Hl by (symmetry; eapply Forall2_length, Hkept).
  split; [assumption|]. intros k p Hp.
  destruct (lookup_min_bursts m m' k p Hbs Hl Hp) as (p' & Hp' & Hb).
  destruct (Forall2_lookup_lr _ _ _ _ _ _ Hkept Hp Hp') as [Hpid Hz].
  exists p'. auto.
Qed.

(** X4. On any table of [plen] records, whatever ints its fields hold,
    [fcfs_run] returns; it changes the store only through calls of
    [run_proc]; it returns the [int] sum of the positive bursts (their sum
    itself when it fits an [int]); every positive burst ends at 0; and a
    record whose burst was zero or negative comes out exactly as it went
    in, so a negative burst is never run and never waits. *)
Theorem fcfs_run_any_table (m : list pcb) :
  exists total m',
    fcfs_run Procs (Z.of_nat (length m)) m = Done (total, m') /\
    total = CInt.wrap (sumZ (work_of m)) /\
    (sumZ (work_of m) <= CInt.int_max -> total = sumZ (work_of m)) /\
    rtc run_proc_call m m' /\
    length m' = length m /\
    forall k p, m !! k = Some p ->
      exists p', m' !! k = Some p' /\ pid p' = pid p /\
        burst_left p' = Z.min 0 (burst_left p) /\ (burst_left p <= 0 -> p' = p).
Proof.
  destruct (fcfs_run_any m) as (m' & Hrun & Hcalls & Hbs).
  exists (CInt.wrap (sumZ (work_of m))), m'.
  split; [exact Hrun|]. split; [reflexivity|]. split.
  { intros Hfit. apply wrap_in_range.
    pose proof (sumZ_nonneg _ (work_of_nonneg m)). int_lia. }
  split; [assumption|]. apply final_records; assumption.
Qed.

(** X5. On any table of at most 2^30 records whose bursts are ints, negative
    ones included, [rr_run] with a positive quantum and fuel for the quanta
    of the positive bursts returns; it changes the store only through calls
    of [run_proc]; it returns the [int] sum of the positive bursts (their
    sum itself when it fits an [int]); every positive burst ends at 0; and
    a record whose burst was zero or negative comes out exactly as it went
    in. *)
Theorem rr_run_any_table (m : list pcb) (quantum : Z) (fuel : nat) :
  0 < quantum -> Z.of_nat (length m) <= 2 ^ 30 ->
  Forall (fun p => burst_left p <= CInt.int_max) m ->
  total_slices quantum (work_of m) <= Z.of_nat fuel ->
  exists total m',
    rr_run fuel Procs (Z.of_nat (length m)) quantum m = Done (total, m') /\
    total = CInt.wrap (sumZ (work_of m)) /\
    (sumZ (work_of m) <= CInt.int_max -> total = sumZ (work_of m)) /\
    rtc run_proc_call m m' /\
    length m' = length m /\
    forall k p, m !! k = Some p ->
      exists p', m' !! k = Some p' /\ pid p' = pid p /\
        burst_left p' = Z.min 0 (burst_left p) /\ (burst_left p <= 0 -> p' = p).
Proof.
  intros Hq Hlen Hmax Hfuel.
  destruct (rr_run_log_any quantum m fuel Hq Hlen Hmax Hfuel)
    as (m' & log & Hrun & Hcalls & Hbs & _).
  exists (CInt.wrap (sumZ (work_of m))), m'.
  split; [rewrite rr_run_forget, Hrun; reflexivity|].
  split; [reflexivity|]. split.
  { intros Hfit. apply wrap_in_range.
    pose proof (sumZ_nonneg _ (work_of_nonneg m)). int_lia. }
  split; [assumption|]. apply final_records; assumption.
Qed.

Lemma rr_run_any_table_witness :
  exists total m',
    rr_run 3 Procs 3 2 [mkpcb 0 3 0; mkpcb 1 (-4) 0; mkpcb 2 2 0]
    = Done (total, m') /\
    total = 5 /\
    m' !! 1%nat = Some (mkpcb 1 (-4) 0).
Proof.
  destruct (rr_run_any_table [mkpcb 0 3 0; mkpcb 1 (-4) 0; mkpcb 2 2 0] 2 3)
    as (total & m' & Hrun & _ & Hsum & _ & _ & Hrec).
  - lia.
  - simpl. lia.
  - repeat (apply Forall_cons_2; [cbn [burst_left]; unfold CInt.int_max; lia|]).
    apply Forall_nil_2.
  - vm_compute. discriminate.
  - exists total, m'. split; [exact Hrun|].
    split; [apply Hsum; vm_compute; discriminate|].
    destruct (Hrec 1%nat (mkpcb 1 (-4) 0) eq_refl) as (p' & Hp' & _ & _ & Hsame).
    rewrite Hp'. f_equal. apply Hsame. cbn [burst_left]. lia.
Defined.

(** X6. Under the same conditions the calls of [run_proc] that [rr_run]
    makes are slices: each runs its process for a positive time of at most
    the quantum, a process is run for exactly its (positive) burst in total
    and a process without work is never run, and the number of calls is the
    number of quanta the positive bursts take. *)
Theorem rr_run_slices (m : list pcb) (quantum : Z) (fuel : nat) :
  0 < quantum -> Z.of_nat (length m) <= 2 ^ 30 ->
  Forall (fun p => burst_left p <= CInt.int_max) m ->
  total_slices quantum (work_of m) <= Z.of_nat fuel ->
  exists total m' log,
    rr_run_log fuel Procs (Z.of_nat (length m)) quantum m
    = Done (total, m', log) /\
    rr_run fuel Procs (Z.of_nat (length m)) quantum m = Done (total, m') /\
    Forall (fun e : Z * Z => 0 < e.2 <= quantum) log /\
    (forall k p, m !! k = Some p ->
       run_time_of (Z.of_nat k) log = Z.max 0 (burst_left p)) /\
    Z.of_nat (length log) = total_slices quantum (work_of m).
Proof.
  intros Hq Hlen Hmax Hfuel.
  destruct (rr_run_log_any quantum m fuel Hq Hlen Hmax Hfuel)
    as (m' & log & Hrun & _ & _ & Hl & Hlog & Hruns).
  exists (CInt.wrap (sumZ (work_of m))), m', log.
  split; [exact Hrun|].
  split; [rewrite rr_run_forget, Hrun; reflexivity|]. auto.
Qed.

Lemma rr_run_slices_witness :
  exists total m' log,
    rr_run_log 5 Procs 3 4 [mkpcb 0 5 0; mkpcb 1 3 0; mkpcb 2 8 0]
    = Done (total, m', log) /\
    rr_run 5 Procs 3 4 [mkpcb 0 5 0; mkpcb 1 3 0; mkpcb 2 8 0]
    = Done (total, m') /\
    Forall (fun e : Z * Z => 0 < e.2 <= 4) log /\
    run_time_of 2 log = 8 /\
    Z.of_nat (length log) = 5.
Proof.
  destruct (rr_run_slices [mkpcb 0 5 0; mkpcb 1 3 0; mkpcb 2 8 0] 4 5)
    as (total & m' & log & Hlog & Hrun & Hq & Hruns & Hlen).
  - lia.
  - simpl. lia.
  - repeat (apply Forall_cons_2; [cbn [burst_left]; unfold CInt.int_max; lia|]).
    apply Forall_nil_2.
  - vm_compute. discriminate.
  - exists total, m', log. split; [exact Hlog|]. split; [exact Hrun|].
    split; [exact Hq|]. split; [apply (Hruns 2%nat (mkpcb 2 8 0) eq_refl)|].
    exact Hlen.
Defined.

(** ** Time accounting *)

Section accounting.

Variable bursts : list Z.
Hypothesis bursts_nonneg_all : Forall (fun b => 0 <= b) bursts.
Hypothesis bursts_sum_fits : sumZ bursts <= CInt.int_max.

Lemma fresh_table_accounted : accounted bursts (fresh_table bursts).
Proof.
  split; [apply length_fresh_table|]. intros k p b Hp Hb.
  unfold fresh_table in Hp. apply list_lookup_imap_Some in Hp as (b' & Hb' & ->).
  assert (b' = b) as -> by congruence.
  cbn [burst_left wait]. rewrite bursts_of_fresh_table.
  pose proof bursts_nonneg_all as Hnn. rewrite Forall_lookup in Hnn.
  pose proof (Hnn k b Hb) as H0. simpl in H0. lia.
Qed.

Lemma accounted_refl m : accounted bursts m -> Forall2 (fun _ _ : pcb => True) m m.
Proof. intros _. apply Forall2_true; auto. Qed.

Lemma advance_accounted m c p rt :
  accounted bursts m -> m !! c = Some p -> 0 < rt <= burst_left p ->
  accounted bursts (advance m c rt) /\
  Forall2 (fun _ _ : pcb => True) m (advance m c rt).
Proof.
  intros [Hl Hacc] Hc Hrt.
  split; [|apply Forall2_true; [auto|symmetry; apply length_advance]].
  destruct (lookup_lt_is_Some_2 bursts c) as [bc Hbc].
  { rewrite <- Hl. eapply lookup_lt_Some, Hc. }
  destruct (Hacc c p bc Hc Hbc) as (Hpb & Hpw & Hpa & _).
  pose proof (sumZ_lookup_le _ _ _ bursts_nonneg_all Hbc) as Hbc_le.
  assert (Forall (fun b => 0 <= b) (bursts_of m)) as Hnn.
  { apply Forall_fmap, Forall_lookup. intros k q Hq. simpl.
    destruct (lookup_lt_is_Some_2 bursts k) as [b Hb].
    { rewrite <- Hl. eapply lookup_lt_Some, Hq. }
    destruct (Hacc k q b Hq Hb) as (Hqb & _). lia. }
  pose proof (sumZ_lookup_le _ _ _ Hnn (lookup_bursts_of _ _ _ Hc)) as Hwork.
  assert (CInt.sub (burst_left p) rt = burst_left p - rt) as Hsub
    by (apply sub_in_range; int_lia).
  assert (sumZ (bursts_of (advance m c rt)) = sumZ (bursts_of m) - rt) as Hsum.
  { rewrite (bursts_of_advance _ _ _ _ Hc).
    rewrite (sumZ_insert _ _ _ _ (lookup_bursts_of _ _ _ Hc)), Hsub. lia. }
  split; [rewrite length_advance; assumption|].
  intros k q' b Hq' Hb. rewrite Hsum.
  destruct (lookup_advance_inv _ _ _ _ _ Hq') as (q & Hq & _ & Hbq & Hwq).
  destruct (Hacc k q b Hq Hb) as (Hqb & Hqw & Hqa & Hqf).
  rewrite Hbq, Hwq. destruct (decide (k = c)) as [->|Hne].
  - simplify_eq. rewrite Hsub. lia.
  - destruct (Z.gtb_spec (burst_left q) 0) as [Hpos|Hz].
    + rewrite add_in_range by int_lia. lia.
    + lia.
Qed.

Lemma run_proc_calls_accounted m :
  rtc run_proc_call (fresh_table bursts) m -> accounted bursts m.
Proof.
  intros Hcalls.
  apply (run_proc_calls_preserve (accounted bursts) (fun _ _ => True)
           accounted_refl (fun _ _ _ _ _ => I) advance_accounted
           _ _ fresh_table_accounted Hcalls).
Qed.

End accounting.

(** X7. Take a table created from non-negative bursts whose sum fits an
    [int], and the store [m] after any number of [run_proc] calls, in any
    order and for any amounts.  With the elapsed time being the work done so
    far (the bursts minus what is left of them), every process that still
    has work has spent exactly the elapsed time running or waiting, and
    every finished process waited and ran for at most the elapsed time; no
    [wait] is negative. *)
Theorem run_proc_calls_account_time (bursts : list Z) (ok : bool)
  (m0 m : list pcb) :
  Forall (fun b => 0 <= b) bursts -> sumZ bursts <= CInt.int_max ->
  init_procs ok (Some bursts) (Z.of_nat (length bursts)) = Done (Some m0) ->
  rtc run_proc_call m0 m ->
  forall k p b, m !! k = Some p -> bursts !! k = Some b ->
    0 <= wait p /\
    (0 < burst_left p ->
       wait p + (b - burst_left p) = sumZ bursts - sumZ (bursts_of m)) /\
    (burst_left p = 0 ->
       wait p + b <= sumZ bursts - sumZ (bursts_of m)).
Proof.
  intros Hnn Hsum Hinit Hcalls k p b Hp Hb.
  apply init_procs_fresh in Hinit as ->.
  destruct (run_proc_calls_accounted bursts Hnn Hsum m Hcalls) as [_ Hacc].
  destruct (Hacc k p b Hp Hb) as (_ & Hw & Ha & Hf). auto.
Qed.

Lemma run_proc_calls_account_time_witness :
  0 <= wait (mkpcb 2 6 7) /\
  (0 < burst_left (mkpcb 2 6 7) ->
     wait (mkpcb 2 6 7) + (8 - burst_left (mkpcb 2 6 7))
     = sumZ [5; 3; 8] - sumZ (bursts_of [mkpcb 0 1 5; mkpcb 1 0 4; mkpcb 2 6 7])) /\
  (burst_left (mkpcb 2 6 7) = 0 ->
     wait (mkpcb 2 6 7) + 8
     <= sumZ [5; 3; 8] - sumZ (bursts_of [mkpcb 0 1 5; mkpcb 1 0 4; mkpcb 2 6 7])).
Proof.
  apply (run_proc_calls_account_time [5; 3; 8] true
           [mkpcb 0 5 0; mkpcb 1 3 0; mkpcb 2 8 0]
           [mkpcb 0 1 5; mkpcb 1 0 4; mkpcb 2 6 7]) with (k := 2%nat).
  - repeat (apply Forall_cons_2; [lia|]). apply Forall_nil_2.
  - vm_compute. discriminate.
  - reflexivity.
  - eapply rtc_l; [exists Procs, 0, 4; reflexivity|].
    eapply rtc_l; [exists Procs, 1, 4; reflexivity|].
    eapply rtc_l; [exists Procs, 2, 2; reflexivity|].
    apply rtc_refl.
  - reflexivity.
  - reflexivity.
Defined.

(** X8. After [fcfs_run], and after [rr_run] with any positive quantum, on
    a table created from non-negative bursts whose sum fits an [int] (at
    most 2^30 of them, fuel for the quanta), no process has waited longer
    than the bursts of the other processes take together: its [wait] lies
    between 0 and the sum of the bursts minus its own burst. *)
Theorem drivers_wait_bound (bursts : list Z) (ok : bool) (m0 : list pcb)
  (quantum : Z) (fuel : nat) :
  Forall (fun b => 0 <= b) bursts -> sumZ bursts <= CInt.int_max ->
  Z.of_nat (length bursts) <= 2 ^ 30 ->
  0 < quantum ->
  init_procs ok (Some bursts) (Z.of_nat (length bursts)) = Done (Some m0) ->
  total_slices quantum bursts <= Z.of_nat fuel ->
  (exists total m1,
     fcfs_run Procs (Z.of_nat (length bursts)) m0 = Done (total, m1) /\
     forall k p b, m1 !! k = Some p -> bursts !! k = Some b ->
       0 <= wait p <= sumZ bursts - b) /\
  (exists total m2,
     rr_run fuel Procs (Z.of_nat (length bursts)) quantum m0 = Done (total, m2) /\
     forall k p b, m2 !! k = Some p -> bursts !! k = Some b ->
       0 <= wait p <= sumZ bursts - b).
Proof.
  intros Hnn Hsum Hlen Hq Hinit Hfuel.
  apply init_procs_fresh in Hinit as ->.
  assert (work_of (fresh_table bursts) = bursts) as Hwork.
  { unfold work_of. rewrite bursts_of_fresh_table.
    rewrite <- (list_fmap_id bursts) at 2. apply list_fmap_ext.
    intros k b Hb. rewrite Forall_lookup in Hnn.
    pose proof (Hnn k b Hb) as H0. simpl in *. lia. }
  assert (Hdone : forall m', rtc run_proc_call (fresh_table bursts) m' ->
            bursts_of m' = Z.min 0 <$> bursts_of (fresh_table bursts) ->
            forall k p b, m' !! k = Some p -> bursts !! k = Some b ->
              0 <= wait p <= sumZ bursts - b).
  { intros m' Hcalls Hbs k p b Hp Hb.
    rewrite bursts_of_fresh_table in Hbs.
    assert (Forall (fun x => x = 0) (bursts_of m')) as Hz.
    { rewrite Hbs. apply Forall_fmap. eapply Forall_impl; [exact Hnn|].
      simpl. intros; lia. }
    destruct (run_proc_calls_accounted bursts Hnn Hsum m' Hcalls) as [_ Hacc].
    destruct (Hacc k p b Hp Hb) as (_ & Hw & _ & Hf).
    rewrite (sumZ_zero _ Hz) in Hf.
    rewrite Forall_lookup in Hz.
    pose proof (Hz k _ (lookup_bursts_of _ _ _ Hp)) as H0. simpl in H0.
    specialize (Hf H0). lia. }
  pose proof (length_fresh_table bursts) as Hl.
  split.
  - destruct (fcfs_run_any (fresh_table bursts)) as (m1 & Hrun & Hcalls & Hbs).
    rewrite Hl in Hrun. eexists _, m1. split; [exact Hrun|].
    apply Hdone; assumption.
  - destruct (rr_run_log_any quantum (fresh_table bursts) fuel)
      as (m2 & log & Hrun & Hcalls & Hbs & _).
    + assumption.
    + rewrite Hl. assumption.
    + apply (fresh_table_bursts_range bursts (fun b => b <= CInt.int_max)).
      apply Forall_lookup. intros k b Hb.
      pose proof (sumZ_lookup_le _ _ _ Hnn Hb). simpl. lia.
    + rewrite Hwork. assumption.
    + rewrite Hl in Hrun. eexists _, m2.
      split; [rewrite rr_run_forget, Hrun; reflexivity|].
      apply Hdone; assumption.
Qed.

Lemma drivers_wait_bound_witness :
  (exists total m1,
     fcfs_run Procs 3 [mkpcb 0 5 0; mkpcb 1 3 0; mkpcb 2 8 0] = Done (total, m1) /\
     forall k p b, m1 !! k = Some p -> [5; 3; 8] !! k = Some b ->
       0 <= wait p <= sumZ [5; 3; 8] - b) /\
  (exists total m2,
     rr_run 5 Procs 3 4 [mkpcb 0 5 0; mkpcb 1 3 0; mkpcb 2 8 0] = Done (total, m2) /\
     forall k p b, m2 !! k = Some p -> [5; 3; 8] !! k = Some b ->
       0 <= wait p <= sumZ [5; 3; 8] - b).
Proof.
  apply (drivers_wait_bound [5; 3; 8] true
           [mkpcb 0 5 0; mkpcb 1 3 0; mkpcb 2 8 0] 4 5).
  - repeat (apply Forall_cons_2; [lia|]). apply Forall_nil_2.
  - vm_compute. discriminate.
  - simpl. lia.
  - lia.
  - reflexivity.
  - vm_compute. discriminate.
Defined.

(** X9. On a table created from non-negative bursts, zeros included,
    [fcfs_run] leaves process [i] with its [pid], no burst, and a [wait]
    that is 0 for a process whose burst was 0 and otherwise the [int] sum of
    the bursts before it (that sum itself when it fits an [int]): a
    zero-length process neither waits nor delays anyone. *)
Theorem fcfs_final_table (bursts : list Z) (ok : bool) (m0 : list pcb) :
  Forall (fun b => 0 <= b) bursts ->
  init_procs ok (Some bursts) (Z.of_nat (length bursts)) = Done (Some m0) ->
  exists total m1,
    fcfs_run Procs (Z.of_nat (length bursts)) m0 = Done (total, m1) /\
    length m1 = length bursts /\
    forall i p b, m1 !! i = Some p -> bursts !! i = Some b ->
      pid p = Z.of_nat i /\ burst_left p = 0 /\
      (b = 0 -> wait p = 0) /\
      (0 < b -> wait p = CInt.wrap (sumZ (take i bursts)) /\
                (sumZ (take i bursts) <= CInt.int_max ->
                 wait p = sumZ (take i bursts))).
Proof.
  intros Hnn Hinit.
  assert (bursts <> []) as Hne.
  { intros ->. unfold init_procs in Hinit. simpl in Hinit. discriminate. }
  apply init_procs_fresh in Hinit as ->.
  exists (CInt.wrap (sumZ bursts)), (fcfs_state bursts (length bursts)).
  split; [apply fcfs_run_fresh; assumption|].
  split; [apply length_fcfs_state|]. intros i p b Hp Hb.
  rewrite (lookup_fcfs_state _ _ _ _ Hb) in Hp. simplify_eq.
  cbn [pid burst_left wait]. pose proof (lookup_lt_Some _ _ _ Hb) as Hi.
  split; [reflexivity|].
  split; [destruct (decide (i < length bursts)%nat); [reflexivity|lia]|].
  rewrite Nat.min_l by lia. split.
  - intros ->. reflexivity.
  - intros Hpos. destruct (Z.gtb_spec b 0); [|lia].
    split; [reflexivity|]. intros Hfit. apply wrap_in_range.
    pose proof (sumZ_take_le bursts i Hnn). int_lia.
Qed.

Lemma fcfs_final_table_witness :
  exists total m1,
    fcfs_run Procs 3 [mkpcb 0 5 0; mkpcb 1 0 0; mkpcb 2 8 0] = Done (total, m1) /\
    m1 !! 1%nat = Some (mkpcb 1 0 0) /\
    m1 !! 2%nat = Some (mkpcb 2 0 5).
Proof.
  destruct (fcfs_final_table [5; 0; 8] true
              [mkpcb 0 5 0; mkpcb 1 0 0; mkpcb 2 8 0])
    as (total & m1 & Hrun & _ & _).
  - repeat (apply Forall_cons_2; [lia|]). apply Forall_nil_2.
  - reflexivity.
  - exists total, m1. split; [exact Hrun|].
    cbv in Hrun. injection Hrun as <- <-. split; reflexivity.
Defined.

(** ** Running a driver again *)

Lemma min_bursts_idle m m' :
  bursts_of m' = Z.min 0 <$> bursts_of m ->
  Forall (fun p => burst_left p <= 0) m'.
Proof.
  intros Hbs. apply Forall_lookup. intros k p Hp. simpl.
  pose proof (lookup_bursts_of _ _ _ Hp) as Hb. rewrite Hbs in Hb.
  rewrite list_lookup_fmap in Hb. apply fmap_Some in Hb as (x & _ & ->). lia.
Qed.

Lemma fcfs_run_idle m :
  Forall (fun p => burst_left p <= 0) m ->
  fcfs_run Procs (Z.of_nat (length m)) m = Done (0, m).
Proof.
  intros Hidle. destruct (fcfs_run_any m) as (m' & -> & Hcalls & Hbs).
  rewrite (sumZ_zero _ (idle_work_zero m Hidle)).
  destruct (final_records m m' Hcalls Hbs) as [Hl Hrec].
  do 2 f_equal. apply list_eq. intros k.
  destruct (m !! k) as [p|] eqn:Hp.
  - destruct (Hrec k p Hp) as (p' & -> & _ & _ & Hsame).
    rewrite Forall_lookup in Hidle. f_equal. apply Hsame, (Hidle k p Hp).
  - apply lookup_ge_None. rewrite Hl. apply lookup_ge_None. assumption.
Qed.

Lemma rr_run_idle m fuel quantum :
  Forall (fun p => burst_left p <= 0) m ->
  rr_run fuel Procs (Z.of_nat (length m)) quantum m = Done (0, m).
Proof.
  intros Hidle. unfold rr_run.
  destruct ((Z.of_nat (length m) <=? 0) || (quantum <=? 0)); [reflexivity|].
  rewrite Nat2Z.id, (first_with_work_none m Hidle). reflexivity.
Qed.

(** X10. Once a driver has run, running a driver again does nothing: on
    the store that [fcfs_run] leaves (on any table), and on the store that
    [rr_run] leaves (positive quantum, bursts that are ints, at most 2^30
    records, fuel for the quanta), a further [fcfs_run] and a further
    [rr_run], with any quantum and any fuel, return 0 and leave the store
    as it is. *)
Theorem drivers_rerun (m : list pcb) (quantum : Z) (fuel : nat) :
  0 < quantum -> Z.of_nat (length m) <= 2 ^ 30 ->
  Forall (fun p => burst_left p <= CInt.int_max) m ->
  total_slices quantum (work_of m) <= Z.of_nat fuel ->
  (exists total m1,
     fcfs_run Procs (Z.of_nat (length m)) m = Done (total, m1) /\
     fcfs_run Procs (Z.of_nat (length m)) m1 = Done (0, m1) /\
     forall fuel' quantum',
       rr_run fuel' Procs (Z.of_nat (length m)) quantum' m1 = Done (0, m1)) /\
  (exists total m2,
     rr_run fuel Procs (Z.of_nat (length m)) quantum m = Done (total, m2) /\
     fcfs_run Procs (Z.of_nat (length m)) m2 = Done (0, m2) /\
     forall fuel' quantum',
       rr_run fuel' Procs (Z.of_nat (length m)) quantum' m2 = Done (0, m2)).
Proof.
  intros Hq Hlen Hmax Hfuel.
  assert (Hagain : forall m', rtc run_proc_call m m' ->
            bursts_of m' = Z.min 0 <$> bursts_of m ->
            fcfs_run Procs (Z.of_nat (length m)) m' = Done (0, m') /\
            forall fuel' quantum',
              rr_run fuel' Procs (Z.of_nat (length m)) quantum' m' = Done (0, m')).
  { intros m' Hcalls Hbs.
    destruct (final_records m m' Hcalls Hbs) as [<- _].
    pose proof (min_bursts_idle m m' Hbs) as Hidle.
    split; [apply fcfs_run_idle, Hidle|].
    intros fuel' quantum'. apply rr_run_idle, Hidle. }
  split.
  - destruct (fcfs_run_any m) as (m1 & Hrun & Hcalls & Hbs).
    eexists _, m1. split; [exact Hrun|]. apply Hagain; assumption.
  - destruct (rr_run_log_any quantum m fuel Hq Hlen Hmax Hfuel)
      as (m2 & log & Hrun & Hcalls & Hbs & _).
    eexists _, m2. split; [rewrite rr_run_forget, Hrun; reflexivity|].
    apply Hagain; assumption.
Qed.

Lemma drivers_rerun_witness :
  (exists total m1,
     fcfs_run Procs 2 [mkpcb 0 5 0; mkpcb 1 3 0] = Done (total, m1) /\
     fcfs_run Procs 2 m1 = Done (0, m1) /\
     forall fuel' quantum', rr_run fuel' Procs 2 quantum' m1 = Done (0, m1)) /\
  (exists total m2,
     rr_run 5 Procs 2 2 [mkpcb 0 5 0; mkpcb 1 3 0] = Done (total, m2) /\
     fcfs_run Procs 2 m2 = Done (0, m2) /\
     forall fuel' quantum', rr_run fuel' Procs 2 quantum' m2 = Done (0, m2)).
Proof.
  apply (drivers_rerun [mkpcb 0 5 0; mkpcb 1 3 0] 2 5).
  - lia.
  - simpl. lia.
  - repeat (apply Forall_cons_2; [cbn [burst_left]; unfold CInt.int_max; lia|]).
    apply Forall_nil_2.
  - vm_compute. discriminate.
Defined.

(** ** [rr_next] outside the range of the table *)

(** X11. [rr_next] looks at [current] only through [(current + 1) % plen]:
    for any [current] from [-1] up to [INT_MAX - 1] (and at most 2^30
    records) it selects what it selects for [current mod plen].  So a
    [current] of [plen] or more is harmless, and [-1] stands for the last
    index: the scan then starts at index 0. *)
Theorem rr_next_mod (m : list pcb) (current : Z) :
  -1 <= current < CInt.int_max ->
  0 < Z.of_nat (length m) <= 2 ^ 30 ->
  rr_next current Procs (Z.of_nat (length m)) m
  = rr_next (current mod Z.of_nat (length m)) Procs (Z.of_nat (length m)) m.
Proof.
  intros Hcur Hlen. unfold rr_next.
  destruct (Z.of_nat (length m) <=? 0); [reflexivity|].
  destruct (has_work_loop _ 0 m) as [w| |]; try reflexivity.
  cbn [mbind outcome_bind]. destruct (w =? 0); [reflexivity|].
  f_equal.
  pose proof (Z.mod_pos_bound current (Z.of_nat (length m))) as Hmod.
  rewrite !add_in_range by int_lia.
  unfold CInt.rem. rewrite !Z.rem_mod_nonneg by lia.
  rewrite Zplus_mod_idemp_l. reflexivity.
Qed.

Lemma rr_next_mod_witness :
  rr_next (-1) Procs 3 [mkpcb 0 0 4; mkpcb 1 6 0; mkpcb 2 6 1]
  = rr_next 2 Procs 3 [mkpcb 0 0 4; mkpcb 1 6 0; mkpcb 2 6 1] /\
  rr_next 7 Procs 3 [mkpcb 0 0 4; mkpcb 1 6 0; mkpcb 2 6 1]
  = rr_next 1 Procs 3 [mkpcb 0 0 4; mkpcb 1 6 0; mkpcb 2 6 1].
Proof.
  split.
  - apply (rr_next_mod [mkpcb 0 0 4; mkpcb 1 6 0; mkpcb 2 6 1] (-1)).
    + unfold CInt.int_max. lia.
    + simpl. lia.
  - apply (rr_next_mod [mkpcb 0 0 4; mkpcb 1 6 0; mkpcb 2 6 1] 7).
    + unfold CInt.int_max. lia.
    + simpl. lia.
Defined.

(** X12. Below [-1] the guard that [run_proc] has is missing in [rr_next]:
    when some record has work and [plen] does not divide [current + 1], the
    first probe of the scan is at the negative index [(current + 1) % plen],
    an access before the start of the array. *)
Theorem rr_next_negative_current (m : list pcb) (current : Z) :
  CInt.int_min <= current < -1 ->
  Z.rem (current + 1) (Z.of_nat (length m)) <> 0 ->
  (exists k, active m k) ->
  rr_next current Procs (Z.of_nat (length m)) m = Undefined.
Proof.
  intros Hcur Hrem [k Hk]. pose proof (active_lt _ _ Hk) as Hlt.
  unfold rr_next. destruct (Z.leb_spec (Z.of_nat (length m)) 0); [lia|].
  rewrite Nat2Z.id.
  destruct (has_work_loop_spec m (length m) 0) as [[_ Hno]|[Hw _]]; [lia| |].
  { exfalso. apply (Hno k); [lia|assumption]. }
  change (Z.of_nat 0) with 0 in Hw. rewrite Hw. cbn [mbind outcome_bind].
  change (1 =? 0) with false. cbv iota.
  rewrite (add_in_range current 1) by int_lia. unfold CInt.rem.
  set (start := Z.rem (current + 1) (Z.of_nat (length m))) in *.
  assert (- Z.of_nat (length m) < start < 0 /\ current + 1 <= start) as Hstart.
  { pose proof (Z.rem_bound_pos (- (current + 1)) (Z.of_nat (length m))
                  ltac:(lia) ltac:(lia)) as Hb.
    pose proof (Z.rem_le (- (current + 1)) (Z.of_nat (length m))
                  ltac:(lia) ltac:(lia)) as Hle.
    rewrite Z.rem_opp_l in Hb, Hle by lia. subst start. lia. }
  destruct (length m) as [|n] eqn:Hn; [lia|].
  cbn [rr_next_scan]. rewrite <- Hn.
  rewrite add_in_range by int_lia. rewrite Z.add_0_r.
  unfold CInt.rem.
  replace (Z.rem start (Z.of_nat (length m))) with start
    by (symmetry; apply Z.rem_small_iff; lia).
  unfold load. destruct (Z.leb_spec 0 start); [lia|]. reflexivity.
Qed.

Lemma rr_next_negative_current_witness :
  rr_next (-5) Procs 3 [mkpcb 0 5 0; mkpcb 1 0 0; mkpcb 2 0 0] = Undefined.
Proof.
  apply (rr_next_negative_current [mkpcb 0 5 0; mkpcb 1 0 0; mkpcb 2 0 0] (-5)).
  - unfold CInt.int_min. lia.
  - vm_compute. discriminate.
  - exists 0%nat, (mkpcb 0 5 0). split; [reflexivity|]. cbn [burst_left]. lia.
Defined.

(** ** [main] *)

Lemma parse_bursts_spec atoi pre rest : forall done acc,
  parse_bursts atoi (length rest) (Z.of_nat (length done))
    (Z.of_nat (length pre)) (pre ++ done ++ rest) acc
  = Done (acc ++ (atoi <$> rest)).
Proof.
  induction rest as [|a rest IH]; intros done acc.
  - simpl. rewrite app_nil_r. reflexivity.
  - simpl length. cbn [parse_bursts].
    replace (Z.of_nat (length done) + Z.of_nat (length pre))
      with (Z.of_nat (length (pre ++ done))) by (rewrite length_app; lia).
    rewrite (app_assoc pre done (a :: rest)), load_middle.
    cbn [mbind outcome_bind]. rewrite <- app_assoc.
    replace (Z.of_nat (length done) + 1) with (Z.of_nat (length (done ++ [a])))
      by (rewrite length_app; simpl; lia).
    rewrite (cons_middle a done rest), (app_assoc done [a] rest).
    rewrite IH, fmap_cons, <- app_assoc. reflexivity.
Qed.

Lemma print_accepted_spec rest : forall pre out,
  print_accepted (length rest) (Z.of_nat (length pre)) (pre ++ rest) out
  = Done (out ++ ((fun p => Accepted (pid p) (burst_left p)) <$> rest)).
Proof.
  induction rest as [|p rest IH]; intros pre out.
  - simpl. rewrite app_nil_r. reflexivity.
  - simpl length. cbn [print_accepted]. rewrite load_middle.
    cbn [mbind outcome_bind].
    replace (Z.of_nat (length pre) + 1) with (Z.of_nat (length (pre ++ [p])))
      by (rewrite length_app; simpl; lia).
    rewrite (cons_middle p pre rest), (app_assoc pre [p] rest).
    rewrite IH, fmap_cons, <- app_assoc. reflexivity.
Qed.

Lemma collect_waits_spec rest : forall pre acc,
  collect_waits (length rest) (Z.of_nat (length pre)) (pre ++ rest) acc
  = Done (acc ++ (wait <$> rest)).
Proof.
  induction rest as [|p rest IH]; intros pre acc.
  - simpl. rewrite app_nil_r. reflexivity.
  - simpl length. cbn [collect_waits]. rewrite load_middle.
    cbn [mbind outcome_bind].
    replace (Z.of_nat (length pre) + 1) with (Z.of_nat (length (pre ++ [p])))
      by (rewrite length_app; simpl; lia).
    rewrite (cons_middle p pre rest), (app_assoc pre [p] rest).
    rewrite IH, fmap_cons, <- app_assoc. reflexivity.
Qed.

Lemma accepted_fresh_table bursts :
  (fun p => Accepted (pid p) (burst_left p)) <$> fresh_table bursts
  = imap (fun i b => Accepted (Z.of_nat i) b) bursts.
Proof. unfold fresh_table. rewrite fmap_imap. reflexivity. Qed.

(** What [main] does once the command line is accepted and the burst
    buffer is allocated, up to the call of the driver. *)
Lemma main_setup atoi (plen : Z) (pre args : list string) :
  args <> [] -> plen = Z.of_nat (length args) ->
  parse_bursts atoi (Z.to_nat plen) 0 (Z.of_nat (length pre)) (pre ++ args) []
  = Done (atoi <$> args) /\
  init_procs true (Some (atoi <$> args)) plen
  = Done (Some (fresh_table (atoi <$> args))) /\
  forall first,
    print_accepted (Z.to_nat plen) 0 (fresh_table (atoi <$> args)) [first]
    = Done (first :: imap (fun i a => Accepted (Z.of_nat i) (atoi a)) args).
Proof.
  intros Hne ->. rewrite Nat2Z.id. split; [|split].
  - apply (parse_bursts_spec atoi pre args [] []).
  - rewrite <- (length_fmap atoi args). apply init_procs_returns.
    destruct args; [congruence|discriminate].
  - intros first.
    rewrite <- (length_fmap atoi args), <- (length_fresh_table (atoi <$> args)).
    pose proof (print_accepted_spec (fresh_table (atoi <$> args)) [] [first])
      as H.
    cbn [length app] in H. change (Z.of_nat 0) with 0 in H. rewrite H.
    rewrite accepted_fresh_table, imap_fmap. reflexivity.
Qed.

Lemma main_report (plen : Z) (m' : list pcb) :
  plen = Z.of_nat (length m') ->
  collect_waits (Z.to_nat plen) 0 m' [] = Done (wait <$> m').
Proof.
  intros ->. rewrite Nat2Z.id. apply (collect_waits_spec m' [] []).
Qed.

(** [main] on a command line [prog fcfs b1 .. bn] with at least one burst:
    the argument checks pass and the bursts are parsed. *)
Lemma main_fcfs_eq atoi mb mp fuel (prog : string) (args : list string) :
  args <> [] ->
  main atoi mb mp fuel (prog :: "fcfs"%string :: args)
  = if negb mb then Done (1, [AllocationFailed])
    else
      procs ← init_procs mp (Some (atoi <$> args)) (Z.of_nat (length args));
      match procs with
      | None => Done (1, [InitFailed])
      | Some m =>
          out ← print_accepted (length args) 0 m [UsingFCFS];
          '(total_time, m') ← fcfs_run Procs (Z.of_nat (length args)) m;
          waits ← collect_waits (length args) 0 m' [];
          Done (0, out ++ [AverageWait waits (Z.of_nat (length args))])
      end.
Proof.
  intros Hne. unfold main.
  assert (0 < Z.of_nat (length args)) as Hpos.
  { destruct args; [congruence|simpl length; lia]. }
  replace (Z.of_nat (length (prog :: "fcfs"%string :: args)))
    with (Z.of_nat (length args) + 2) by (simpl length; lia).
  destruct (Z.ltb_spec (Z.of_nat (length args) + 2) 2); [lia|].
  rewrite (load_lookup (prog :: "fcfs"%string :: args) 1 "fcfs"%string eq_refl
           : load _ 1 = _).
  cbn [mbind outcome_bind]. rewrite String.eqb_refl.
  destruct (Z.ltb_spec (Z.of_nat (length args) + 2) 3); [lia|].
  replace (Z.of_nat (length args) + 2 - 2) with (Z.of_nat (length args)) by lia.
  destruct (negb mb); [reflexivity|].
  rewrite Nat2Z.id.
  rewrite (parse_bursts_spec atoi [prog; "fcfs"%string] args [] []
           : parse_bursts atoi (length args) 0 2 (prog :: "fcfs"%string :: args) []
             = _).
  reflexivity.
Qed.

(** The same for [prog rr q b1 .. bn]. *)
Lemma main_rr_eq atoi mb mp fuel (prog q : string) (args : list string) :
  args <> [] ->
  main atoi mb mp fuel (prog :: "rr"%string :: q :: args)
  = if negb mb then Done (1, [AllocationFailed])
    else
      procs ← init_procs mp (Some (atoi <$> args)) (Z.of_nat (length args));
      match procs with
      | None => Done (1, [InitFailed])
      | Some m =>
          out ← print_accepted (length args) 0 m [UsingRR (atoi q)];
          '(total_time, m') ←
            rr_run fuel Procs (Z.of_nat (length args)) (atoi q) m;
          waits ← collect_waits (length args) 0 m' [];
          Done (0, out ++ [AverageWait waits (Z.of_nat (length args))])
      end.
Proof.
  intros Hne. unfold main.
  assert (0 < Z.of_nat (length args)) as Hpos.
  { destruct args; [congruence|simpl length; lia]. }
  replace (Z.of_nat (length (prog :: "rr"%string :: q :: args)))
    with (Z.of_nat (length args) + 3) by (simpl length; lia).
  destruct (Z.ltb_spec (Z.of_nat (length args) + 3) 2); [lia|].
  rewrite (load_lookup (prog :: "rr"%string :: q :: args) 1 "rr"%string eq_refl
           : load _ 1 = _).
  cbn [mbind outcome_bind].
  change (String.eqb "rr" "fcfs") with false. rewrite String.eqb_refl.
  cbv iota.
  destruct (Z.ltb_spec (Z.of_nat (length args) + 3) 4); [lia|].
  rewrite (load_lookup (prog :: "rr"%string :: q :: args) 2 q eq_refl
           : load _ 2 = _).
  cbn [mbind outcome_bind]. cbv zeta.
  replace (Z.of_nat (length args) + 3 - 3) with (Z.of_nat (length args)) by lia.
  destruct (negb mb); [reflexivity|].
  rewrite Nat2Z.id.
  rewrite (parse_bursts_spec atoi [prog; "rr"%string; q] args [] []
           : parse_bursts atoi (length args) 0 3
               (prog :: "rr"%string :: q :: args) [] = _).
  reflexivity.
Qed.

(** [main] after both allocations succeeded, given what the driver
    returns. *)
Lemma main_report_eq (args : list string) atoi first total (m' : list pcb)
  (run : list pcb -> outcome (Z * list pcb)) :
  args <> [] -> run (fresh_table (atoi <$> args)) = Done (total, m') ->
  length m' = length args ->
  (procs ← init_procs true (Some (atoi <$> args)) (Z.of_nat (length args));
   match procs with
   | None => Done (1, [InitFailed])
   | Some m =>
       out ← print_accepted (length args) 0 m [first];
       '(total_time, m') ← run m;
       waits ← collect_waits (length args) 0 m' [];
       Done (0, out ++ [AverageWait waits (Z.of_nat (length args))])
   end)
  = Done (0, first :: imap (fun i a => Accepted (Z.of_nat i) (atoi a)) args
               ++ [AverageWait (wait <$> m') (Z.of_nat (length args))]).
Proof.
  intros Hne Hrun Hlen.
  destruct (main_setup atoi (Z.of_nat (length args)) [] args Hne eq_refl)
    as (_ & -> & Hprint).
  cbn [mbind outcome_bind]. rewrite <- (Nat2Z.id (length args)) at 1.
  rewrite Hprint, Hrun. cbn [mbind outcome_bind].
  rewrite <- (Nat2Z.id (length args)) at 1.
  rewrite main_report by lia. reflexivity.
Qed.

Lemma init_procs_malloc_fails bursts blen :
  init_procs false (Some bursts) blen = Done None.
Proof. unfold init_procs. destruct (blen <=? 0); reflexivity. Qed.

Lemma waits_fresh_table bursts :
  wait <$> fresh_table bursts = replicate (length bursts) 0.
Proof.
  unfold fresh_table. rewrite fmap_imap.
  change (imap (fun (_ : nat) (_ : Z) => 0) bursts = replicate (length bursts) 0).
  induction bursts as [|b bursts IH]; [reflexivity|].
  rewrite imap_cons. cbn [length replicate]. f_equal. exact IH.
Qed.

Lemma waits_fcfs_state bursts :
  Forall (fun b => 0 < b) bursts -> sumZ bursts <= CInt.int_max ->
  wait <$> fcfs_state bursts (length bursts)
  = imap (fun i _ => sumZ (take i bursts)) bursts.
Proof.
  intros Hpos Hfit. unfold fcfs_state. rewrite fmap_imap.
  apply imap_ext. intros i b Hb. cbn [wait compose].
  pose proof (lookup_lt_Some _ _ _ Hb) as Hi.
  pose proof (Forall_lookup_1 _ _ _ _ Hpos Hb) as Hb0. cbn beta in Hb0.
  destruct (Z.gtb_spec b 0); [|lia]. rewrite Nat.min_l by lia.
  assert (Forall (fun b => 0 <= b) bursts) as Hnn.
  { eapply Forall_impl; [exact Hpos|]. intros; cbn beta in *; lia. }
  apply wrap_in_range. pose proof (sumZ_take_le bursts i Hnn). int_lia.
Qed.

(** X13.  [main] reports missing arguments, with exit status 1 and nothing
    else printed, exactly when the command line is neither
    [prog fcfs b1 .. bn] nor [prog rr q b1 .. bn] with at least one burst:
    too few arguments and an unknown algorithm are the same error, and what
    the arguments after the algorithm contain plays no part. *)
Theorem main_usage_error (atoi : string -> Z) (malloc_bursts malloc_procs : bool)
  (fuel : nat) (argv : list string) :
  main atoi malloc_bursts malloc_procs fuel argv = Done (1, [MissingArguments])
  <->
  ~ ((exists prog args, args <> [] /\ argv = prog :: "fcfs"%string :: args) \/
     (exists prog q args,
        args <> [] /\ argv = prog :: "rr"%string :: q :: args)).
Proof.
  split.
  - intros H [(prog & args & Hne & ->)|(prog & q & args & Hne & ->)].
    + rewrite main_fcfs_eq in H by assumption.
      destruct (negb malloc_bursts); [discriminate|].
      destruct (init_procs _ _ _) as [[m|]| |]; cbn [mbind outcome_bind] in H;
        try discriminate.
      destruct (print_accepted _ _ _ _); cbn [mbind outcome_bind] in H;
        try discriminate.
      destruct (fcfs_run _ _ _) as [[t m']| |]; cbn [mbind outcome_bind] in H;
        try discriminate.
      destruct (collect_waits _ _ _ _); cbn [mbind outcome_bind] in H;
        discriminate.
    + rewrite main_rr_eq in H by assumption.
      destruct (negb malloc_bursts); [discriminate|].
      destruct (init_procs _ _ _) as [[m|]| |]; cbn [mbind outcome_bind] in H;
        try discriminate.
      destruct (print_accepted _ _ _ _); cbn [mbind outcome_bind] in H;
        try discriminate.
      destruct (rr_run _ _ _ _ _) as [[t m']| |]; cbn [mbind outcome_bind] in H;
        try discriminate.
      destruct (collect_waits _ _ _ _); cbn [mbind outcome_bind] in H;
        discriminate.
  - intros H. destruct argv as [|prog [|alg rest]]; [reflexivity..|].
    unfold main.
    replace (Z.of_nat (length (prog :: alg :: rest)))
      with (Z.of_nat (length rest) + 2) by (simpl length; lia).
    destruct (Z.ltb_spec (Z.of_nat (length rest) + 2) 2); [lia|].
    rewrite (load_lookup (prog :: alg :: rest) 1 alg eq_refl : load _ 1 = _).
    cbn [mbind outcome_bind].
    destruct (String.eqb_spec alg "fcfs") as [->|_].
    { destruct rest as [|a rest]; [reflexivity|].
      exfalso. apply H. left. exists prog, (a :: rest). split; [|reflexivity].
      discriminate. }
    destruct (String.eqb_spec alg "rr") as [->|_]; [|reflexivity].
    destruct rest as [|q [|a rest]]; [reflexivity..|].
    exfalso. apply H. right. exists prog, q, (a :: rest).
    split; [|reflexivity]. discriminate.
Qed.

(** X14.  On an accepted command line a failed allocation ends [main] with
    exit status 1 and one message: the allocation failure when the burst
    buffer cannot be allocated, the initialisation failure when the buffer
    is allocated but the table of [init_procs] is not.  No scheduling
    output is printed, and the driver is not run (the fuel plays no
    part). *)
Theorem main_allocation_failure (atoi : string -> Z)
  (malloc_bursts malloc_procs : bool) (fuel : nat) (prog q : string)
  (args : list string) :
  args <> [] -> malloc_bursts && malloc_procs = false ->
  main atoi malloc_bursts malloc_procs fuel (prog :: "fcfs"%string :: args)
  = Done (1, [if malloc_bursts then InitFailed else AllocationFailed]) /\
  main atoi malloc_bursts malloc_procs fuel (prog :: "rr"%string :: q :: args)
  = Done (1, [if malloc_bursts then InitFailed else AllocationFailed]).
Proof.
  intros Hne Hfail. rewrite main_fcfs_eq, main_rr_eq by assumption.
  destruct malloc_bursts; [|split; reflexivity].
  destruct malloc_procs; [discriminate|]. cbn [negb].
  rewrite init_procs_malloc_fails. split; reflexivity.
Qed.

Lemma main_allocation_failure_witness :
  main (fun s => Z.of_nat (String.length s)) true false 0
    ["sched"; "fcfs"; "xxx"; "xx"]%string = Done (1, [InitFailed]) /\
  main (fun s => Z.of_nat (String.length s)) true false 0
    ["sched"; "rr"; "x"; "xxx"; "xx"]%string = Done (1, [InitFailed]).
Proof.
  apply (main_allocation_failure (fun s => Z.of_nat (String.length s))
           true false 0 "sched" "x" ["xxx"; "xx"]%string);
    [discriminate|reflexivity].
Defined.

(** X15.  On [prog fcfs b1 .. bn] with at least one burst and both
    allocations succeeding, [main] exits with status 0 for every [atoi]
    (so also for arguments that are not numbers, or are negative).  It
    prints the FCFS header, one line per argument with pid [i] and burst
    [atoi bi] in argument order, and the average of the [wait] fields of the
    table that [fcfs_run] leaves, over [n] processes. *)
Theorem main_fcfs (atoi : string -> Z) (fuel : nat) (prog : string)
  (args : list string) :
  args <> [] ->
  exists total m',
    fcfs_run Procs (Z.of_nat (length args)) (fresh_table (atoi <$> args))
    = Done (total, m') /\
    length m' = length args /\
    main atoi true true fuel (prog :: "fcfs"%string :: args)
    = Done (0, UsingFCFS
               :: imap (fun i a => Accepted (Z.of_nat i) (atoi a)) args
               ++ [AverageWait (wait <$> m') (Z.of_nat (length args))]).
Proof.
  intros Hne.
  destruct (fcfs_run_any (fresh_table (atoi <$> args))) as (m' & Hrun & Hc & Hb).
  rewrite length_fresh_table, length_fmap in Hrun.
  destruct (final_records _ _ Hc Hb) as [Hlen _].
  rewrite length_fresh_table, length_fmap in Hlen.
  eexists _, m'. split; [exact Hrun|]. split; [exact Hlen|].
  rewrite main_fcfs_eq by assumption. cbn [negb].
  exact (main_report_eq args atoi UsingFCFS _ m'
           (fun m => fcfs_run Procs (Z.of_nat (length args)) m) Hne Hrun Hlen).
Qed.

Lemma main_fcfs_witness :
  exists total m',
    fcfs_run Procs 2 (fresh_table [3; 2]) = Done (total, m') /\
    length m' = 2%nat /\
    main (fun s => Z.of_nat (String.length s)) true true 0
      ["sched"; "fcfs"; "xxx"; "xx"]%string
    = Done (0, [UsingFCFS; Accepted 0 3; Accepted 1 2]
               ++ [AverageWait (wait <$> m') 2]).
Proof.
  apply (main_fcfs (fun s => Z.of_nat (String.length s)) 0 "sched"
           ["xxx"; "xx"]%string).
  discriminate.
Defined.

(** X16.  On [prog rr q b1 .. bn] with a positive quantum [atoi q], both
    allocations succeeding and the loop of [rr_run] given its steps, [main]
    exits with status 0.  It prints the RR header with the quantum, one line
    per argument with pid [i] and burst [atoi bi], and the average of the
    [wait] fields of the table that [rr_run] leaves. *)
Theorem main_rr (atoi : string -> Z) (fuel : nat) (prog q : string)
  (args : list string) :
  args <> [] -> 0 < atoi q -> Z.of_nat (length args) <= 2 ^ 30 ->
  Forall (fun a => atoi a <= CInt.int_max) args ->
  total_slices (atoi q) (Z.max 0 <$> (atoi <$> args)) <= Z.of_nat fuel ->
  exists total m',
    rr_run fuel Procs (Z.of_nat (length args)) (atoi q)
      (fresh_table (atoi <$> args)) = Done (total, m') /\
    length m' = length args /\
    main atoi true true fuel (prog :: "rr"%string :: q :: args)
    = Done (0, UsingRR (atoi q)
               :: imap (fun i a => Accepted (Z.of_nat i) (atoi a)) args
               ++ [AverageWait (wait <$> m') (Z.of_nat (length args))]).
Proof.
  intros Hne Hq Hlen Hmax Hfuel.
  destruct (rr_run_log_any (atoi q) (fresh_table (atoi <$> args)) fuel)
    as (m' & log & Hrun & Hc & Hb & _).
  - assumption.
  - rewrite length_fresh_table, length_fmap. assumption.
  - apply Forall_lookup_2. intros k p Hp. unfold fresh_table in Hp.
    rewrite list_lookup_imap, list_lookup_fmap in Hp.
    destruct (args !! k) as [a|] eqn:Ha; [|discriminate].
    cbn in Hp. simplify_eq. cbn [burst_left].
    exact (Forall_lookup_1 _ _ _ _ Hmax Ha).
  - unfold work_of. rewrite bursts_of_fresh_table. assumption.
  - rewrite length_fresh_table, length_fmap in Hrun.
    destruct (final_records _ _ Hc Hb) as [Hl _].
    rewrite length_fresh_table, length_fmap in Hl.
    assert (rr_run fuel Procs (Z.of_nat (length args)) (atoi q)
              (fresh_table (atoi <$> args))
            = Done (CInt.wrap (sumZ (work_of (fresh_table (atoi <$> args)))), m'))
      as Hrr by (rewrite rr_run_forget, Hrun; reflexivity).
    eexists _, m'. split; [exact Hrr|]. split; [exact Hl|].
    rewrite main_rr_eq by assumption. cbn [negb].
    exact (main_report_eq args atoi (UsingRR (atoi q)) _ m'
             (fun m => rr_run fuel Procs (Z.of_nat (length args)) (atoi q) m)
             Hne Hrr Hl).
Qed.

Lemma main_rr_witness :
  exists total m',
    rr_run 3 Procs 2 2 (fresh_table [3; 1]) = Done (total, m') /\
    length m' = 2%nat /\
    main (fun s => Z.of_nat (String.length s)) true true 3
      ["sched"; "rr"; "xx"; "xxx"; "x"]%string
    = Done (0, [UsingRR 2; Accepted 0 3; Accepted 1 1]
               ++ [AverageWait (wait <$> m') 2]).
Proof.
  apply (main_rr (fun s => Z.of_nat (String.length s)) 3 "sched" "xx"
           ["xxx"; "x"]%string).
  - discriminate.
  - reflexivity.
  - vm_compute. discriminate.
  - apply Forall_cons_2; [vm_compute; discriminate|].
    apply Forall_cons_2; [vm_compute; discriminate|]. apply Forall_nil_2.
  - vm_compute. discriminate.
Defined.

(** X17.  On [prog rr q b1 .. bn] where [atoi q] is not positive (a quantum
    of 0, a negative one, or text for which [atoi] gives 0), [main] still
    exits with status 0: it prints the header and the accepted processes,
    runs nothing, and reports the average of [n] waits that are all 0,
    whatever the bursts are. *)
Theorem main_rr_bad_quantum (atoi : string -> Z) (fuel : nat) (prog q : string)
  (args : list string) :
  args <> [] -> atoi q <= 0 ->
  main atoi true true fuel (prog :: "rr"%string :: q :: args)
  = Done (0, UsingRR (atoi q)
             :: imap (fun i a => Accepted (Z.of_nat i) (atoi a)) args
             ++ [AverageWait (replicate (length args) 0)
                   (Z.of_nat (length args))]).
Proof.
  intros Hne Hq. rewrite main_rr_eq by assumption. cbn [negb].
  rewrite (main_report_eq args atoi (UsingRR (atoi q)) 0
             (fresh_table (atoi <$> args))
             (fun m => rr_run fuel Procs (Z.of_nat (length args)) (atoi q) m)
             Hne).
  - rewrite waits_fresh_table, length_fmap. reflexivity.
  - unfold rr_run. destruct (Z.leb_spec (atoi q) 0); [|lia].
    rewrite orb_true_r. reflexivity.
  - rewrite length_fresh_table, length_fmap. reflexivity.
Qed.

Lemma main_rr_bad_quantum_witness :
  main (fun s => Z.of_nat (String.length s) - 1) true true 0
    ["sched"; "rr"; "x"; "xxxx"; "xx"]%string
  = Done (0, [UsingRR 0; Accepted 0 3; Accepted 1 1; AverageWait [0; 0] 2]).
Proof.
  apply (main_rr_bad_quantum (fun s => Z.of_nat (String.length s) - 1) 0
           "sched" "x" ["xxxx"; "xx"]%string).
  - discriminate.
  - vm_compute. discriminate.
Defined.

(** X18.  On [prog fcfs b1 .. bn] where every [atoi bi] is positive and
    their sum fits an [int], the waits that [main] averages are the sums of
    the bursts before each process: 0 for the first, [b1] for the second,
    [b1 + b2] for the third, and so on. *)
Theorem main_fcfs_waits (atoi : string -> Z) (fuel : nat) (prog : string)
  (args : list string) :
  args <> [] -> Forall (fun a => 0 < atoi a) args ->
  sumZ (atoi <$> args) <= CInt.int_max ->
  main atoi true true fuel (prog :: "fcfs"%string :: args)
  = Done (0, UsingFCFS
             :: imap (fun i a => Accepted (Z.of_nat i) (atoi a)) args
             ++ [AverageWait
                   (imap (fun i _ => sumZ (take i (atoi <$> args))) args)
                   (Z.of_nat (length args))]).
Proof.
  intros Hne Hpos Hfit.
  assert (Forall (fun b => 0 < b) (atoi <$> args)) as Hpos'.
  { apply Forall_fmap. exact Hpos. }
  assert (Forall (fun b => 0 <= b) (atoi <$> args)) as Hnn.
  { eapply Forall_impl; [exact Hpos'|]. intros; cbn beta in *; lia. }
  assert (atoi <$> args <> []) as Hne'.
  { destruct args; [congruence|discriminate]. }
  pose proof (fcfs_run_fresh (atoi <$> args) Hne' Hnn) as Hrun.
  rewrite length_fmap in Hrun.
  rewrite main_fcfs_eq by assumption. cbn [negb].
  rewrite (main_report_eq args atoi UsingFCFS _ _
             (fun m => fcfs_run Procs (Z.of_nat (length args)) m) Hne Hrun)
    by (rewrite length_fcfs_state, length_fmap; reflexivity).
  pose proof (waits_fcfs_state _ Hpos' Hfit) as Hw.
  rewrite length_fmap, imap_fmap in Hw. rewrite Hw. reflexivity.
Qed.

Lemma main_fcfs_waits_witness :
  main (fun s => Z.of_nat (String.length s)) true true 0
    ["sched"; "fcfs"; "xxx"; "xx"; "xxxx"]%string
  = Done (0, [UsingFCFS; Accepted 0 3; Accepted 1 2; Accepted 2 4;
              AverageWait [0; 3; 5] 3]).
Proof.
  apply (main_fcfs_waits (fun s => Z.of_nat (String.length s)) 0 "sched"
           ["xxx"; "xx"; "xxxx"]%string).
  - discriminate.
  - repeat (apply Forall_cons_2; [reflexivity|]). apply Forall_nil_2.
  - vm_compute. discriminate.
Defined.

(** X19.  When every [atoi bi] is between 0 and the quantum [atoi q], the
    command lines [prog rr q b1 .. bn] and [prog fcfs b1 .. bn] print the
    same accepted processes and the same average wait: the two outputs
    differ in the header line only. *)
Theorem main_rr_big_quantum (atoi : string -> Z) (fuel : nat) (prog q : string)
  (args : list string) :
  args <> [] -> Forall (fun a => 0 <= atoi a <= atoi q) args ->
  Z.of_nat (length args) <= 2 ^ 30 -> (length args <= fuel)%nat ->
  exists out,
    main atoi true true fuel (prog :: "fcfs"%string :: args)
    = Done (0, UsingFCFS :: out) /\
    main atoi true true fuel (prog :: "rr"%string :: q :: args)
    = Done (0, UsingRR (atoi q) :: out).
Proof.
  intros Hne Hb Hlen Hfuel.
  assert (Forall (fun b => 0 <= b <= atoi q) (atoi <$> args)) as Hb'.
  { apply Forall_fmap. exact Hb. }
  assert (Forall (fun b => 0 <= b) (atoi <$> args)) as Hnn.
  { eapply Forall_impl; [exact Hb'|]. intros; cbn beta in *; lia. }
  assert (atoi <$> args <> []) as Hne'.
  { destruct args; [congruence|discriminate]. }
  pose proof (fcfs_run_fresh (atoi <$> args) Hne' Hnn) as Hfcfs.
  pose proof (rr_run_big_quantum (atoi <$> args) (atoi q) fuel Hne' Hb') as Hrr.
  rewrite length_fmap in Hfcfs, Hrr.
  specialize (Hrr Hlen Hfuel).
  assert (length (fcfs_state (atoi <$> args) (length args)) = length args)
    as Hl by (rewrite length_fcfs_state, length_fmap; reflexivity).
  eexists. split.
  - rewrite main_fcfs_eq by assumption. cbn [negb].
    exact (main_report_eq args atoi UsingFCFS _ _
             (fun m => fcfs_run Procs (Z.of_nat (length args)) m) Hne Hfcfs Hl).
  - rewrite main_rr_eq by assumption. cbn [negb].
    exact (main_report_eq args atoi (UsingRR (atoi q)) _ _
             (fun m => rr_run fuel Procs (Z.of_nat (length args)) (atoi q) m)
             Hne Hrr Hl).
Qed.

Lemma main_rr_big_quantum_witness :
  exists out,
    main (fun s => Z.of_nat (String.length s)) true true 2
      ["sched"; "fcfs"; "xxx"; "xx"]%string = Done (0, UsingFCFS :: out) /\
    main (fun s => Z.of_nat (String.length s)) true true 2
      ["sched"; "rr"; "xxxx"; "xxx"; "xx"]%string = Done (0, UsingRR 4 :: out).
Proof.
  apply (main_rr_big_quantum (fun s => Z.of_nat (String.length s)) 2
           "sched" "xxxx" ["xxx"; "xx"]%string).
  - discriminate.
  - apply Forall_cons_2; [vm_compute; split; discriminate|].
    apply Forall_cons_2; [vm_compute; split; discriminate|]. apply Forall_nil_2.
  - vm_compute. discriminate.
  - simpl. lia.
Defined.
